(** * nvm-mcp: the Neovim RPC orchestration layer of [src/neovim.ts]

    A shallow embedding of [findNeovimSockets], [getNeovimInstance],
    [getNeovimInstanceDetails], [openFileInNeovim] and [executeInNeovim].

    Conventions of the embedding.
    - A JavaScript [number] that holds an integer is a [Z].  [parseInt]
      returns the double nearest to the digits it reads, so it is exact
      below 2^53 and rounds from there on; template-literal rendering is
      the decimal one (JavaScript agrees below 10^21).
    - A JavaScript string is a [string] of 8-bit code units.
    - An optional field or parameter ([x?: T]) is an [option T], [None]
      standing for [undefined].
    - The file system and the remote editor are explicit parameters: a
      [filesystem] snapshot and a [remote] oracle.  The oracle answers each
      call as a function of the log of everything that happened before on
      the connection, so successive calls may be answered differently.
    - Asynchronous code threads an event [log]: [Sent r] when a remote call
      is issued, [Settled r] when the code awaiting it resumes.  A thrown
      value travels next to the log, so the log survives a throw. *)

From Stdlib Require Import ZArith List String Ascii Bool Lia PeanoNat.
From Stdlib Require Import Sorting.Permutation.
From Stdlib Require Import Numbers.DecimalString.
From Stdlib Require Numbers.DecimalPos.
Import ListNotations.
Local Open Scope string_scope.
Local Open Scope Z_scope.

(** ** JavaScript string and number primitives used by the source *)

Module JS.

(** [s.startsWith(p)] *)
Definition startsWith (s p : string) : bool := String.prefix p s.

(** [s.endsWith(p)] *)
Definition endsWith (s p : string) : bool :=
  (String.length p <=? String.length s)%nat
  && String.eqb
       (String.substring (String.length s - String.length p)
                         (String.length p) s) p.

(** [s.substring(n)] *)
Fixpoint substring_from (n : nat) (s : string) : string :=
  match n, s with
  | O, _ => s
  | S _, EmptyString => EmptyString
  | S n', String _ s' => substring_from n' s'
  end.

(** [\d] of a regular expression without the unicode flag. *)
Definition is_digit (c : ascii) : bool :=
  ((48 <=? nat_of_ascii c) && (nat_of_ascii c <=? 57))%nat.

(** White space removed by [String.prototype.trim], restricted to the
    8-bit code units: TAB, LF, VT, FF, CR, SPACE and NBSP. *)
Definition is_space (c : ascii) : bool :=
  let n := nat_of_ascii c in
  ((9 <=? n) && (n <=? 13) || (n =? 32) || (n =? 160))%nat.

Fixpoint trimStart (s : string) : string :=
  match s with
  | EmptyString => EmptyString
  | String c s' => if is_space c then trimStart s' else s
  end.

Definition reverse (s : string) : string :=
  string_of_list_ascii (rev (list_ascii_of_string s)).

Definition trimEnd (s : string) : string :=
  reverse (trimStart (reverse s)).

(** [s.trim()] *)
Definition trim (s : string) : string := trimEnd (trimStart s).

(** Truthiness of a string: only the empty string is falsy. *)
Definition truthy (s : string) : bool :=
  match s with EmptyString => false | String _ _ => true end.

(** [s || undefined] *)
Definition or_undefined (s : string) : option string :=
  if truthy s then Some s else None.

(** [s || d] on strings *)
Definition str_or (s d : string) : string :=
  if truthy s then s else d.

(** [n || d] where [n : number | undefined]: [undefined] and [0] are the
    falsy values. *)
Definition num_or (n : option Z) (d : Z) : Z :=
  match n with
  | Some v => if v =? 0 then d else v
  | None => d
  end.

(** [`${n}`] for an integer [n]. *)
Definition number_to_string (n : Z) : string :=
  NilZero.string_of_int (Z.to_int n).

Definition digit_value (c : ascii) : Z := Z.of_nat (nat_of_ascii c - 48).

Fixpoint parse_digits (acc : Z) (s : string) : Z :=
  match s with
  | EmptyString => acc
  | String c s' => parse_digits (10 * acc + digit_value c) s'
  end.

(** The double nearest to a non-negative integer, ties going to the even
    mantissa: the integer itself below 2^53, a multiple of a power of two
    with a 53-bit mantissa from there on.  (Overflow to [Infinity] starts
    at 2^1024, beyond any run of digits a file name can hold.) *)
Definition to_double (z : Z) : Z :=
  if z <? 2 ^ 53 then z
  else
    let k := Z.log2 z - 52 in
    let q := Z.shiftr z k in
    let r := z - Z.shiftl q k in
    let half := Z.shiftl 1 (k - 1) in
    let q := if r <? half then q
             else if half <? r then q + 1
             else if Z.even q then q else q + 1 in
    Z.shiftl q k.

(** [parseInt(s, 10)] on a run of decimal digits, which is all the regular
    expression below ever captures: the number the digits denote, as a
    double. *)
Definition parseInt (s : string) : Z := to_double (parse_digits 0 s).

(** Longest run of digits at the head of [s], and what follows it. *)
Fixpoint span_digits (s : string) : string * string :=
  match s with
  | EmptyString => (EmptyString, EmptyString)
  | String c s' =>
      if is_digit c
      then let (ds, rest) := span_digits s' in (String c ds, rest)
      else (EmptyString, s)
  end.

(** The pattern [nvim-(\d+)\.sock] tried at the head of [s].  [\d+] is
    greedy; giving digits back cannot help, because the character after
    a shorter run is a digit and not the dot. *)
Definition match_here (s : string) : option string :=
  if String.prefix "nvim-" s then
    let (ds, rest) := span_digits (substring_from 5 s) in
    if truthy ds && String.prefix ".sock" rest then Some ds else None
  else None.

(** [s.match(/nvim-(\d+)\.sock/)]: the pattern carries no anchor, so the
    leftmost position where it fits is taken.  The result is capture
    group 1, or [None] for a null match. *)
Fixpoint match_nvim_sock (s : string) : option string :=
  match match_here s with
  | Some ds => Some ds
  | None =>
      match s with
      | EmptyString => None
      | String _ s' => match_nvim_sock s'
      end
  end.

End JS.

(** ** Data model (the exported interfaces) *)

Record NeovimInstance := { socket : string; pid : Z }.

Module Buf.
Record t := { id : Z; name : string; loaded : bool; current : bool }.
End Buf.

Module Cursor.
(** [line] and [column] are [pos[1]] and [pos[2]] of the [getpos] reply:
    [None] when the reply is too short. *)
Record t := { line : option Z; column : option Z }.
End Cursor.

Module Details.
Record t := {
  instance : NeovimInstance;
  workingDirectory : option string;
  currentFile : option string;
  buffers : option (list Buf.t);
  cursorPosition : option Cursor.t;
  error : option string
}.
End Details.

Module Open.
Record t := {
  success : bool;
  message : string;
  file : option string;
  line : option Z;
  column : option Z;
  error : option string
}.
End Open.

Module Exec.
Record t := {
  success : bool;
  message : string;
  command : option string;
  output : option string;
  error : option string
}.
End Exec.

(** A thrown JavaScript value: an [Error] with its message, or anything
    else. *)
Inductive thrown := ErrorObj (message : string) | NonError.

(** [e instanceof Error ? e.message : dflt] *)
Definition message_or (e : thrown) (dflt : string) : string :=
  match e with
  | ErrorObj m => m
  | NonError => dflt
  end.

(** ** Socket discovery *)

Record Stats := { isSocket : bool }.

(** What [fs] answers: [inl] is a thrown error. *)
Record filesystem := {
  existsSync : string -> bool;
  readdirSync : string -> thrown + list string;
  statSync : string -> thrown + Stats
}.

(** [path.join(dir, file)] for a directory entry [file] (entries hold no
    separator, so nothing is normalised away). *)
Definition join (dir file : string) : string := dir ++ "/" ++ file.

(** One turn of the [for (const file of files)] loop of
    [findNeovimSockets]; [sockets] is the array built so far. *)
Definition scan_entry (fs : filesystem) (tmpDir : string)
    (sockets : list NeovimInstance) (file : string) : list NeovimInstance :=
  if JS.startsWith file "nvim-" && JS.endsWith file ".sock" then
    let fullPath := join tmpDir file in
    match statSync fs fullPath with
    | inr stats =>
        if isSocket stats then
          match JS.match_nvim_sock file with
          | Some pidMatch1 =>
              (sockets ++ [ {| socket := fullPath; pid := JS.parseInt pidMatch1 |} ])%list
          | None => sockets
          end
        else sockets
    | inl _ => sockets
    end
  else sockets.

(** Only [readdirSync] can throw into the outer [catch]: it runs before
    the first [push], so the array returned from there is empty. *)
Definition findNeovimSockets (fs : filesystem) : list NeovimInstance :=
  let tmpDir := "/tmp" in
  if negb (existsSync fs tmpDir) then []
  else
    match readdirSync fs tmpDir with
    | inr files => fold_left (scan_entry fs tmpDir) files []
    | inl _ => []
    end.

(** [sockets.find((socket) => socket.pid === pid) || null] *)
Definition getNeovimInstance (fs : filesystem) (pid0 : Z) : option NeovimInstance :=
  find (fun s => pid s =? pid0) (findNeovimSockets fs).

(** ** The remote editor and the event log *)

(** A [Buffer] handle of the client library; [id] is local data of the
    handle, [name] and [loaded] are remote calls. *)
Record NvimBuffer := { buf_id : Z }.

Inductive request :=
| Attach (path : string)          (* attach({ socket: path }) *)
| CallGetcwd                      (* nvim.call('getcwd') *)
| GetBuffer                       (* nvim.buffer *)
| GetName (buffer : Z)            (* buffer.name *)
| CallGetpos                      (* nvim.call('getpos', '.') *)
| GetBuffers                      (* nvim.buffers *)
| GetLoaded (buffer : Z)          (* buffer.loaded *)
| Command (cmd : string)          (* nvim.command(cmd) *)
| CallCursor (line col : Z)       (* nvim.call('cursor', [line, col]) *)
| Input (keys : string)           (* nvim.input(keys) *)
| Close.                          (* nvim.close() *)

Inductive event :=
| Sent (r : request)              (* the call is issued *)
| Settled (r : request).          (* the code awaiting it resumes *)

Definition log := list event.

(** The remote side.  Every answer may depend on the whole log; [inl] is a
    rejection.  A [command] reply is [None] when the editor returns
    nothing.  [settle_pick] is the event loop's choice of which pending
    call settles next when several are in flight. *)
Record remote := {
  on_attach : log -> string -> thrown + unit;
  on_getcwd : log -> thrown + string;
  on_buffer : log -> thrown + NvimBuffer;
  on_name : log -> Z -> thrown + string;
  on_getpos : log -> thrown + list Z;
  on_buffers : log -> thrown + list NvimBuffer;
  on_loaded : log -> Z -> thrown + bool;
  on_command : log -> string -> thrown + option string;
  on_cursor : log -> Z -> Z -> thrown + unit;
  on_input : log -> string -> thrown + unit;
  on_close : log -> thrown + unit;
  settle_pick : log -> nat
}.

(** ** Asynchronous computations that may throw *)

Definition M (A : Type) : Type := remote -> log -> (thrown + A) * log.

Definition ret {A} (a : A) : M A := fun _ h => (inr a, h).

Definition throw {A} (e : thrown) : M A := fun _ h => (inl e, h).

Definition bind {A B} (c : M A) (k : A -> M B) : M B :=
  fun w h =>
    match c w h with
    | (inr a, h') => k a w h'
    | (inl e, h') => (inl e, h')
    end.

Notation "x <- c ;; k" := (bind c (fun x => k))
  (at level 61, c at next level, right associativity).
Notation "c ;; k" := (bind c (fun _ => k))
  (at level 61, right associativity).

(** [try { body } catch (e) { handler e }] *)
Definition try_catch {A} (body : M A) (handler : thrown -> M A) : M A :=
  fun w h =>
    match body w h with
    | (inr a, h') => (inr a, h')
    | (inl e, h') => handler e w h'
    end.

(** [try { body } catch (e) { return handler e }] closing an exported
    function: whatever [body] does, a value is returned.  Every exported
    function opens a connection of its own, so its log starts empty. *)
Definition try_return {A} (body : M A) (handler : thrown -> A)
    : remote -> A * log :=
  fun w =>
    match body w [] with
    | (inr a, h') => (a, h')
    | (inl e, h') => (handler e, h')
    end.

(** [return a] of an exported function before anything is awaited. *)
Definition return_now {A} (a : A) : remote -> A * log :=
  fun _ => (a, []).

(** [await <call>]: the call is issued, the remote answers, the awaiting
    code resumes with the reply or with the rejection thrown. *)
Definition await {A} (r : request) (answer : remote -> log -> thrown + A) : M A :=
  fun w h =>
    (answer w (h ++ [Sent r])%list, (h ++ [Sent r; Settled r])%list).

(** ** [Promise.all(allBuffers.map(async (buffer) => ...))]

    [map] runs every callback up to its first [await], so all the
    [buffer.name] calls are issued before any of them settles.  From then
    on each settlement resumes one callback, which runs up to its next
    [await] or to its [return]. *)

Inductive buffer_task :=
| AwaitingName (buffer : NvimBuffer)                  (* at [await buffer.name] *)
| AwaitingLoaded (buffer : NvimBuffer) (name : string) (* at [await buffer.loaded] *)
| Fulfilled (info : Buf.t).                           (* returned *)

Definition is_pending (t : buffer_task) : bool :=
  match t with Fulfilled _ => false | _ => true end.

(** The [k]-th pending task, with the tasks before and after it. *)
Fixpoint pick_pending (k : nat) (ts : list buffer_task)
    : option (list buffer_task * buffer_task * list buffer_task) :=
  match ts with
  | [] => None
  | t :: rest =>
      let skip k' :=
        match pick_pending k' rest with
        | Some (before, x, after) => Some (t :: before, x, after)
        | None => None
        end in
      if is_pending t then
        match k with
        | O => Some ([], t, rest)
        | S k' => skip k'
        end
      else skip k
  end.

(** The callback of [map], resumed at its pending [await]. *)
Definition resume_task (currentBuffer : NvimBuffer) (t : buffer_task)
    : M buffer_task :=
  fun w h =>
    match t with
    | AwaitingName buffer =>
        let h1 := (h ++ [Settled (GetName (buf_id buffer))])%list in
        match on_name w h (buf_id buffer) with
        | inr name =>
            (inr (AwaitingLoaded buffer name),
             (h1 ++ [Sent (GetLoaded (buf_id buffer))])%list)
        | inl e => (inl e, h1)
        end
    | AwaitingLoaded buffer name =>
        let h1 := (h ++ [Settled (GetLoaded (buf_id buffer))])%list in
        match on_loaded w h (buf_id buffer) with
        | inr loaded =>
            (inr (Fulfilled
                    {| Buf.id := buf_id buffer;
                       Buf.name :=
                         JS.str_or name
                           ("[Buffer " ++ JS.number_to_string (buf_id buffer) ++ "]");
                       Buf.loaded := loaded;
                       Buf.current := buf_id buffer =? buf_id currentBuffer |}),
             h1)
        | inl e => (inl e, h1)
        end
    | Fulfilled _ => (inr t, h)
    end.

Definition pending_count (ts : list buffer_task) : nat :=
  List.length (filter is_pending ts).

(** The event loop while [Promise.all] is awaited: one pending call
    settles per turn, chosen by [settle_pick]; the first rejection rejects
    the whole, and the function moves on to its [catch] without waiting
    for the callbacks still pending, whose later events are not part of
    this log; with nothing pending every task has returned.  [turns] is
    the number of awaits still ahead, two per callback at the start:
    [run_tasks_returns] shows that they never run short. *)
Fixpoint run_tasks (turns : nat) (currentBuffer : NvimBuffer)
    (ts : list buffer_task) : M (list buffer_task) :=
  fun w h =>
    match turns with
    | O => (inr ts, h)
    | S turns' =>
        match pick_pending (settle_pick w h mod pending_count ts) ts with
        | None => (inr ts, h)
        | Some (before, t, after) =>
            match resume_task currentBuffer t w h with
            | (inr t', h') =>
                run_tasks turns' currentBuffer (before ++ t' :: after)%list w h'
            | (inl e, h') => (inl e, h')
            end
        end
    end.

Definition fulfilled_values (ts : list buffer_task) : list Buf.t :=
  flat_map (fun t => match t with Fulfilled info => [info] | _ => [] end) ts.

Definition promise_all_map (currentBuffer : NvimBuffer)
    (allBuffers : list NvimBuffer) : M (list Buf.t) :=
  fun w h =>
    let started := (h ++ map (fun b => Sent (GetName (buf_id b))) allBuffers)%list in
    match run_tasks (2 * List.length allBuffers) currentBuffer
                    (map AwaitingName allBuffers) w started with
    | (inr ts, h') => (inr (fulfilled_values ts), h')
    | (inl e, h') => (inl e, h')
    end.

(** ** [getNeovimInstanceDetails] *)

(** The template literal of the outer [catch] block, the same in the three
    exported functions:
    [`Failed to connect to Neovim instance: ${error instanceof Error ?
    error.message : 'Unknown error'}`]. *)
Definition connect_failure (error : thrown) : string :=
  "Failed to connect to Neovim instance: " ++ message_or error "Unknown error".

(** The remote calls of the inner [try] block up to, and excluding,
    [nvim.close()], and the snapshot they feed. *)
Definition snapshot_calls (instance : NeovimInstance) : M Details.t :=
  workingDirectory <- await CallGetcwd on_getcwd ;;
  currentBuffer <- await GetBuffer on_buffer ;;
  currentFile <- await (GetName (buf_id currentBuffer))
                       (fun w h => on_name w h (buf_id currentBuffer)) ;;
  pos <- await CallGetpos on_getpos ;;
  let line := nth_error pos 1 in
  let column := nth_error pos 2 in
  allBuffers <- await GetBuffers on_buffers ;;
  buffers <- promise_all_map currentBuffer allBuffers ;;
  ret {| Details.instance := instance;
         Details.workingDirectory := Some workingDirectory;
         Details.currentFile := JS.or_undefined currentFile;
         Details.buffers := Some buffers;
         Details.cursorPosition :=
           Some {| Cursor.line := line; Cursor.column := column |};
         Details.error := None |}.

(** The object literal [{ instance, error }]. *)
Definition error_details (instance : NeovimInstance) (error : string) : Details.t :=
  {| Details.instance := instance;
     Details.workingDirectory := None;
     Details.currentFile := None;
     Details.buffers := None;
     Details.cursorPosition := None;
     Details.error := Some error |}.

Definition getNeovimInstanceDetails (fs : filesystem) (pid : Z)
    : remote -> Details.t * log :=
  match getNeovimInstance fs pid with
  | None =>
      return_now
        (error_details {| socket := ""; pid := pid |}
           ("Neovim instance with PID " ++ JS.number_to_string pid ++ " not found"))
  | Some instance =>
      try_return
        (await (Attach (socket instance))
               (fun w h => on_attach w h (socket instance)) ;;
         try_catch
           (details <- snapshot_calls instance ;;
            await Close on_close ;;
            ret details)
           (fun rpcError =>
              try_catch (await Close on_close) (fun closeError => ret tt) ;;
              throw rpcError))
        (fun error => error_details instance (connect_failure error))
  end.

(** ** [openFileInNeovim] *)

(** The remote calls of the inner [try] block before [nvim.close()]; the
    value is [resultMessage]. *)
Definition navigate_calls (filePath : string)
    (line column endLine endColumn : option Z) : M string :=
  await (Command ("edit " ++ filePath))
        (fun w h => on_command w h ("edit " ++ filePath)) ;;
  await (Command "checktime") (fun w h => on_command w h "checktime") ;;
  let resultMessage := "Opened " ++ filePath in
  match line with
  | Some line =>
      let col := JS.num_or column 1 in
      await (CallCursor line col) (fun w h => on_cursor w h line col) ;;
      let resultMessage :=
        resultMessage ++ " at line " ++ JS.number_to_string line
                      ++ ", column " ++ JS.number_to_string col in
      match endLine with
      | Some endLine =>
          let endCol := JS.num_or endColumn 999 in
          await (Input "v") (fun w h => on_input w h "v") ;;
          await (CallCursor endLine endCol)
                (fun w h => on_cursor w h endLine endCol) ;;
          ret (resultMessage ++ " (selected to line " ++ JS.number_to_string endLine
                             ++ ", column " ++ JS.number_to_string endCol ++ ")")
      | None => ret resultMessage
      end
  | None => ret resultMessage
  end.

Definition openFileInNeovim (fs : filesystem) (pid : Z) (filePath : string)
    (line column endLine endColumn : option Z)
    : remote -> Open.t * log :=
  match getNeovimInstance fs pid with
  | None =>
      return_now
        {| Open.success := false;
           Open.message :=
             "Neovim instance with PID " ++ JS.number_to_string pid ++ " not found";
           Open.file := None;
           Open.line := None;
           Open.column := None;
           Open.error := Some ("PID " ++ JS.number_to_string pid ++ " not found") |}
  | Some instance =>
      try_return
        (await (Attach (socket instance))
               (fun w h => on_attach w h (socket instance)) ;;
         try_catch
           (resultMessage <- navigate_calls filePath line column endLine endColumn ;;
            await Close on_close ;;
            ret {| Open.success := true;
                   Open.message := resultMessage;
                   Open.file := Some filePath;
                   Open.line := line;
                   Open.column := column;
                   Open.error := None |})
           (fun rpcError =>
              try_catch (await Close on_close) (fun closeError => ret tt) ;;
              throw rpcError))
        (fun error =>
           {| Open.success := false;
              Open.message := "Failed to open file in Neovim";
              Open.file := Some filePath;
              Open.line := None;
              Open.column := None;
              Open.error := Some (connect_failure error) |})
  end.

(** ** [executeInNeovim] *)

(** [nvim.command(cmd)] inside its own [try]/[catch]; the value is
    [output]. *)
Definition command_output (cmd : string) : M string :=
  try_catch
    (result <- await (Command cmd) (fun w h => on_command w h cmd) ;;
     ret match result with Some text => text | None => "" end)
    (fun cmdError => ret (message_or cmdError "Command executed (may have failed)")).

(** The remote calls of the inner [try] block before [nvim.close()]; the
    value is [(output, resultMessage)]. *)
Definition execute_calls (command : string) (isKeySequence : bool)
    : M (string * string) :=
  if isKeySequence then
    await (Input command) (fun w h => on_input w h command) ;;
    ret ("", "Executed key sequence: " ++ command)
  else
    output <- (if JS.startsWith command ":" then
                 let cleanCommand := JS.substring_from 1 command in
                 command_output cleanCommand
               else
                 command_output command) ;;
    let resultMessage := "Executed command: " ++ command in
    if JS.truthy output && JS.truthy (JS.trim output)
    then ret (output, resultMessage ++ " → " ++ JS.trim output)
    else ret (output, resultMessage).

Definition executeInNeovim (fs : filesystem) (pid : Z) (command : string)
    (isKeySequence : bool) : remote -> Exec.t * log :=
  match getNeovimInstance fs pid with
  | None =>
      return_now
        {| Exec.success := false;
           Exec.message :=
             "Neovim instance with PID " ++ JS.number_to_string pid ++ " not found";
           Exec.command := Some command;
           Exec.output := None;
           Exec.error := Some ("PID " ++ JS.number_to_string pid ++ " not found") |}
  | Some instance =>
      try_return
        (await (Attach (socket instance))
               (fun w h => on_attach w h (socket instance)) ;;
         try_catch
           (out <- execute_calls command isKeySequence ;;
            await Close on_close ;;
            ret {| Exec.success := true;
                   Exec.message := snd out;
                   Exec.command := Some command;
                   Exec.output := JS.or_undefined (fst out);
                   Exec.error := None |})
           (fun rpcError =>
              try_catch (await Close on_close) (fun closeError => ret tt) ;;
              throw rpcError))
        (fun error =>
           {| Exec.success := false;
              Exec.message := "Failed to execute command in Neovim";
              Exec.command := Some command;
              Exec.output := None;
              Exec.error := Some (connect_failure error) |})
  end.

(** ** Concrete file systems and remotes *)

(** A [/tmp] holding [files], every one of them a socket. *)
Definition tmp_with (files : list string) : filesystem :=
  {| existsSync := fun p => String.eqb p "/tmp";
     readdirSync := fun _ => inr files;
     statSync := fun _ => inr {| isSocket := true |} |}.

(** An editor in [/home/u] with two buffers, the first one current, that
    answers every call; of the callbacks with a pending call, the earliest
    one is resumed first. *)
Definition calm : remote :=
  {| on_attach := fun _ _ => inr tt;
     on_getcwd := fun _ => inr "/home/u";
     on_buffer := fun _ => inr {| buf_id := 1 |};
     on_name := fun _ b => inr (if b =? 1 then "/home/u/a.txt" else "");
     on_getpos := fun _ => inr [0; 3; 7; 0];
     on_buffers := fun _ => inr [ {| buf_id := 1 |}; {| buf_id := 2 |} ];
     on_loaded := fun _ b => inr (b =? 1);
     on_command := fun _ _ => inr None;
     on_cursor := fun _ _ _ => inr tt;
     on_input := fun _ _ => inr tt;
     on_close := fun _ => inr tt;
     settle_pick := fun _ => O |}.

(** [calm], except that [attach] throws [e]. *)
Definition refusing (e : thrown) : remote :=
  {| on_attach := fun _ _ => inl e;
     on_getcwd := on_getcwd calm;
     on_buffer := on_buffer calm;
     on_name := on_name calm;
     on_getpos := on_getpos calm;
     on_buffers := on_buffers calm;
     on_loaded := on_loaded calm;
     on_command := on_command calm;
     on_cursor := on_cursor calm;
     on_input := on_input calm;
     on_close := on_close calm;
     settle_pick := settle_pick calm |}.

(** A connection that is established and closes, on which every call in
    between is rejected with [e]. *)
Definition rejecting (e : thrown) : remote :=
  {| on_attach := fun _ _ => inr tt;
     on_getcwd := fun _ => inl e;
     on_buffer := fun _ => inl e;
     on_name := fun _ _ => inl e;
     on_getpos := fun _ => inl e;
     on_buffers := fun _ => inl e;
     on_loaded := fun _ _ => inl e;
     on_command := fun _ _ => inl e;
     on_cursor := fun _ _ _ => inl e;
     on_input := fun _ _ => inl e;
     on_close := fun _ => inr tt;
     settle_pick := fun _ => O |}.

(** [calm], except that [nvim.close()] throws [e] every time. *)
Definition unclosable (e : thrown) : remote :=
  {| on_attach := on_attach calm;
     on_getcwd := on_getcwd calm;
     on_buffer := on_buffer calm;
     on_name := on_name calm;
     on_getpos := on_getpos calm;
     on_buffers := on_buffers calm;
     on_loaded := on_loaded calm;
     on_command := on_command calm;
     on_cursor := on_cursor calm;
     on_input := on_input calm;
     on_close := fun _ => inl e;
     settle_pick := settle_pick calm |}.

(** A [/tmp] with one editor, process 1257. *)
Definition one_instance : filesystem := tmp_with ["nvim-1257.sock"].

(** A [/tmp] whose only entry starts with [nvim-] and ends with [.sock]
    around something that is not a run of digits. *)
Definition odd_entry : filesystem := tmp_with ["nvim-x-nvim-5.sock"].

(** ** Vocabulary of the statements *)

(** [sub] occurs in [s]. *)
Definition Mentions (s sub : string) : Prop :=
  exists before after, s = before ++ sub ++ after.

(** The events of calls made one after another, each settled before the
    next is issued. *)
Definition completed (rs : list request) : log :=
  flat_map (fun r => [Sent r; Settled r]) rs.

(** The log the remote sees when [r] is issued after [h]. *)
Definition asking (h : log) (r : request) : log := (h ++ [Sent r])%list.

(** No call is issued while [pending] earlier ones have not settled. *)
Fixpoint in_flight_ok (pending : nat) (h : log) : bool :=
  match h with
  | [] => true
  | Sent _ :: h' => (pending =? 0)%nat && in_flight_ok 1 h'
  | Settled _ :: h' => in_flight_ok (Nat.pred pending) h'
  end.

(** Strictly sequential dispatch: at most one call in flight at any time. *)
Definition one_at_a_time (h : log) : bool := in_flight_ok 0 h.

Definition is_close (e : event) : bool :=
  match e with Sent Close => true | _ => false end.

(** How many times [nvim.close()] was called. *)
Definition times_closed (h : log) : nat := List.length (filter is_close h).

(** What one turn of the event loop adds to the log while [Promise.all]
    is awaited: a callback resumes from [buffer.name] and at once issues
    [buffer.loaded], or it resumes from [buffer.loaded] and returns. *)
Inductive resumption : log -> Prop :=
| name_resumed (b : Z) : resumption [Settled (GetName b); Sent (GetLoaded b)]
| loaded_resumed (b : Z) : resumption [Settled (GetLoaded b)].

(** The buffer a callback of [map] works on. *)
Definition task_id (t : buffer_task) : Z :=
  match t with
  | AwaitingName buffer => buf_id buffer
  | AwaitingLoaded buffer _ => buf_id buffer
  | Fulfilled info => Buf.id info
  end.

(** The awaits a callback still has ahead of it. *)
Definition awaits_left (t : buffer_task) : nat :=
  match t with
  | AwaitingName _ => 2
  | AwaitingLoaded _ _ => 1
  | Fulfilled _ => 0
  end.

Definition work (ts : list buffer_task) : nat := list_sum (map awaits_left ts).

(** The connect / use / close skeleton that the three exported functions
    spell out in full inside their outer [try]; [calls] is the sequence of
    remote calls and [result] builds the returned object. *)
Definition session {A B} (instance : NeovimInstance) (calls : M A)
    (result : A -> B) : M B :=
  await (Attach (socket instance))
        (fun w h => on_attach w h (socket instance)) ;;
  try_catch
    (a <- calls ;;
     await Close on_close ;;
     ret (result a))
    (fun rpcError =>
       try_catch (await Close on_close) (fun closeError => ret tt) ;;
       throw rpcError).

(** The log once the connection to [instance] is established. *)
Definition connected (instance : NeovimInstance) : log :=
  completed [Attach (socket instance)].

(** What [attach] answers at the start of a call. *)
Definition attach_outcome (w : remote) (instance : NeovimInstance) : thrown + unit :=
  on_attach w (asking [] (Attach (socket instance))) (socket instance).

(** The object literals the exported functions return, by name. *)

Definition open_ok (filePath : string) (line column : option Z)
    (resultMessage : string) : Open.t :=
  {| Open.success := true;
     Open.message := resultMessage;
     Open.file := Some filePath;
     Open.line := line;
     Open.column := column;
     Open.error := None |}.

Definition open_failed (filePath : string) (error : string) : Open.t :=
  {| Open.success := false;
     Open.message := "Failed to open file in Neovim";
     Open.file := Some filePath;
     Open.line := None;
     Open.column := None;
     Open.error := Some error |}.

Definition open_not_found (pid : Z) : Open.t :=
  {| Open.success := false;
     Open.message :=
       "Neovim instance with PID " ++ JS.number_to_string pid ++ " not found";
     Open.file := None;
     Open.line := None;
     Open.column := None;
     Open.error := Some ("PID " ++ JS.number_to_string pid ++ " not found") |}.

Definition exec_ok (command : string) (out : string * string) : Exec.t :=
  {| Exec.success := true;
     Exec.message := snd out;
     Exec.command := Some command;
     Exec.output := JS.or_undefined (fst out);
     Exec.error := None |}.

Definition exec_failed (command : string) (error : string) : Exec.t :=
  {| Exec.success := false;
     Exec.message := "Failed to execute command in Neovim";
     Exec.command := Some command;
     Exec.output := None;
     Exec.error := Some error |}.

Definition exec_not_found (pid : Z) (command : string) : Exec.t :=
  {| Exec.success := false;
     Exec.message :=
       "Neovim instance with PID " ++ JS.number_to_string pid ++ " not found";
     Exec.command := Some command;
     Exec.output := None;
     Exec.error := Some ("PID " ++ JS.number_to_string pid ++ " not found") |}.

Definition details_not_found (pid : Z) : Details.t :=
  error_details {| socket := ""; pid := pid |}
    ("Neovim instance with PID " ++ JS.number_to_string pid ++ " not found").

(** The one editor of [one_instance]. *)
Definition nvim1257 : NeovimInstance :=
  {| socket := "/tmp/nvim-1257.sock"; pid := 1257 |}.

(** The invariant of an operation result (section 3): [error] is present
    exactly when [success] is false, and [message] is there to be read. *)
Definition open_result_invariant (r : Open.t) : Prop :=
  (Open.error r <> None <-> Open.success r = false) /\ Open.message r <> "".

Definition exec_result_invariant (r : Exec.t) : Prop :=
  (Exec.error r <> None <-> Exec.success r = false) /\ Exec.message r <> "".

(** A snapshot without any of its optional data fields. *)
Definition no_snapshot_fields (d : Details.t) : Prop :=
  Details.workingDirectory d = None /\ Details.currentFile d = None
  /\ Details.buffers d = None /\ Details.cursorPosition d = None.

(** The calls a navigation issues between [attach] and [close] when none
    of them rejects. *)
Definition navigation_requests (filePath : string)
    (line column endLine endColumn : option Z) : list request :=
  [Command ("edit " ++ filePath); Command "checktime"]
  ++ match line with
     | Some l =>
         CallCursor l (JS.num_or column 1)
         :: match endLine with
            | Some el => [Input "v"; CallCursor el (JS.num_or endColumn 999)]
            | None => []
            end
     | None => []
     end.

(** The command string handed to [nvim.command] in command mode. *)
Definition dispatched (command : string) : string :=
  if JS.startsWith command ":" then JS.substring_from 1 command else command.

(** The [output] kept when [nvim.command] throws [e]. *)
Definition rejection_text (e : thrown) : string :=
  message_or e "Command executed (may have failed)".

(** *** Discovery as section 4.1 of the specification words it

    An entry is kept when its whole name is [nvim-<digits>.sock] and a
    successful status check reports a socket; its id is the digit run. *)

Definition is_instance_name (file : string) : bool :=
  String.prefix "nvim-" file
  && (let (ds, rest) := JS.span_digits (JS.substring_from 5 file) in
      JS.truthy ds && String.eqb rest ".sock").

Definition digit_run (file : string) : string :=
  fst (JS.span_digits (JS.substring_from 5 file)).

Definition discover_entry (fs : filesystem) (dir file : string)
    : list NeovimInstance :=
  if is_instance_name file then
    match statSync fs (join dir file) with
    | inr stats =>
        if isSocket stats
        then [ {| socket := join dir file; pid := JS.parseInt (digit_run file) |} ]
        else []
    | inl _ => []
    end
  else [].

Definition discover (fs : filesystem) : list NeovimInstance :=
  if existsSync fs "/tmp" then
    match readdirSync fs "/tmp" with
    | inr files => flat_map (discover_entry fs "/tmp") files
    | inl _ => []
    end
  else [].

(** ** Presentation ([formatNeovimInstances], [formatNeovimInstanceDetails]) *)

(** The line feed of the template literals. *)
Definition LF : string := String (ascii_of_nat 10) EmptyString.

(** [`${x}`] for [x : number | undefined]. *)
Definition optional_number_to_string (x : option Z) : string :=
  match x with
  | Some n => JS.number_to_string n
  | None => "undefined"
  end.

(** Truthiness of [x : string | undefined]. *)
Definition truthy_opt (x : option string) : bool :=
  match x with
  | Some s => JS.truthy s
  | None => false
  end.

(** [s.replace(pat, rep)] with a string pattern: the first occurrence of
    [pat] is replaced (the replacement used by the source, ".", holds no
    [$] pattern). *)
Fixpoint replace_first (pat rep s : string) : string :=
  if String.prefix pat s
  then rep ++ JS.substring_from (String.length pat) s
  else
    match s with
    | EmptyString => EmptyString
    | String c s' => String c (replace_first pat rep s')
    end.

Fixpoint spaces (n : nat) : string :=
  match n with
  | O => EmptyString
  | S n' => String " " (spaces n')
  end.

(** [s.padStart(n)] *)
Definition padStart (n : nat) (s : string) : string :=
  spaces (n - String.length s) ++ s.

Definition formatNeovimInstances (instances : list NeovimInstance) : string :=
  if (List.length instances =? 0)%nat then "No Neovim instances found"
  else
    let instanceInfo :=
      String.concat LF
        (map (fun i => "PID " ++ JS.number_to_string (pid i) ++ ": " ++ socket i)
             instances) in
    "Found " ++ JS.number_to_string (Z.of_nat (List.length instances))
             ++ " Neovim instance(s):" ++ LF ++ instanceInfo.

(** One turn of [details.buffers.forEach]: the line appended to [output].
    [cwd] is what [process.cwd()] returns. *)
Definition buffer_line (cwd : string) (buffer : Buf.t) : string :=
  let current := if Buf.current buffer then " [CURRENT]" else "" in
  let loaded := if Buf.loaded buffer then "" else " (not loaded)" in
  let displayName :=
    JS.str_or (replace_first cwd "." (Buf.name buffer))
              ("[Buffer " ++ JS.number_to_string (Buf.id buffer) ++ "]") in
  padStart 3 (JS.number_to_string (Buf.id buffer)) ++ ": " ++ displayName
    ++ loaded ++ current ++ LF.

Definition formatNeovimInstanceDetails (cwd : string) (details : Details.t)
    : string :=
  let instance := Details.instance details in
  let error := Details.error details in
  if truthy_opt error then
    "Neovim Instance " ++ JS.number_to_string (pid instance) ++ LF
      ++ "Socket: " ++ socket instance ++ LF
      ++ "Error: " ++ match error with Some e => e | None => "" end
  else
    let output := "=== Neovim Instance " ++ JS.number_to_string (pid instance)
                    ++ " ===" ++ LF in
    let output := output ++ "Socket: " ++ socket instance ++ LF ++ LF in
    let output :=
      match Details.workingDirectory details with
      | Some wd =>
          if JS.truthy wd
          then output ++ "Working Directory: " ++ wd ++ LF
          else output
      | None => output
      end in
    let output :=
      match Details.currentFile details with
      | Some cf =>
          if JS.truthy cf then output ++ "Current File: " ++ cf ++ LF else output
      | None => output
      end in
    let output :=
      match Details.cursorPosition details with
      | Some c =>
          output ++ "Cursor Position: Line "
                 ++ optional_number_to_string (Cursor.line c)
                 ++ ", Column " ++ optional_number_to_string (Cursor.column c)
                 ++ LF
      | None => output
      end in
    match Details.buffers details with
    | Some buffers =>
        if (0 <? List.length buffers)%nat then
          let output :=
            output ++ LF ++ "=== Open Buffers ("
                   ++ JS.number_to_string (Z.of_nat (List.length buffers))
                   ++ ") ===" ++ LF in
          fold_left (fun output buffer => output ++ buffer_line cwd buffer)
                    buffers output
        else output
    | None => output
    end.

(** ** The registered tools (the handlers of [server.tool])

    The value is the [text] of the one content item returned.  The
    [catch] of a handler is never entered, because the functions it calls
    return a value whatever happens; it is left out. *)

(** "list-neovim-instances" *)
Definition tool_list_neovim_instances (fs : filesystem) : string :=
  let instances := findNeovimSockets fs in
  formatNeovimInstances instances.

(** "get-neovim-instance" *)
Definition tool_get_neovim_instance (fs : filesystem) (cwd : string) (pid : Z)
    : remote -> string * log :=
  fun w =>
    let (details, h) := getNeovimInstanceDetails fs pid w in
    (formatNeovimInstanceDetails cwd details, h).

(** [result.error || result.message] *)
Definition error_or_message (error : option string) (message : string) : string :=
  match error with
  | Some e => JS.str_or e message
  | None => message
  end.

(** "neovim-open-file" *)
Definition tool_neovim_open_file (fs : filesystem) (pid : Z) (filePath : string)
    (line column endLine endColumn : option Z) : remote -> string * log :=
  fun w =>
    let (result, h) :=
      openFileInNeovim fs pid filePath line column endLine endColumn w in
    if Open.success result then (Open.message result, h)
    else ("Error: " ++ error_or_message (Open.error result) (Open.message result), h).

(** "neovim-execute"; [isKeySequence = false] is the default of the
    destructuring. *)
Definition tool_neovim_execute (fs : filesystem) (pid : Z) (command : string)
    (isKeySequence : option bool) : remote -> string * log :=
  fun w =>
    let isKeySequence :=
      match isKeySequence with Some b => b | None => false end in
    let (result, h) := executeInNeovim fs pid command isKeySequence w in
    if Exec.success result then (Exec.message result, h)
    else ("Error: " ++ error_or_message (Exec.error result) (Exec.message result), h).

(** ** Vocabulary of the further statements *)

(** What one directory entry contributes to discovery. *)
Definition entry_instances (fs : filesystem) (file : string) : list NeovimInstance :=
  scan_entry fs "/tmp" [] file.

(** The socket name the README has the editor create for process [n]. *)
Definition readme_socket_name (n : Z) : string :=
  "nvim-" ++ JS.number_to_string n ++ ".sock".


(** A settled callback of the buffer list, as the callback builds it. *)
Definition well_formed_info (currentBuffer : Z) (info : Buf.t) : Prop :=
  Buf.name info <> ""
  /\ Buf.current info = (Buf.id info =? currentBuffer).

(** The message of a navigation that went through. *)
Definition navigation_message (filePath : string)
    (line column endLine endColumn : option Z) : string :=
  match line with
  | None => "Opened " ++ filePath
  | Some l =>
      match endLine with
      | None =>
          "Opened " ++ filePath ++ " at line " ++ JS.number_to_string l
            ++ ", column " ++ JS.number_to_string (JS.num_or column 1)
      | Some el =>
          "Opened " ++ filePath ++ " at line " ++ JS.number_to_string l
            ++ ", column " ++ JS.number_to_string (JS.num_or column 1)
            ++ " (selected to line " ++ JS.number_to_string el
            ++ ", column " ++ JS.number_to_string (JS.num_or endColumn 999) ++ ")"
      end
  end.

(** The [output] of command mode for each answer to [nvim.command]: the
    text returned, nothing for an empty return, the message of what was
    thrown. *)
Definition kept_output (answer : thrown + option string) : string :=
  match answer with
  | inr (Some text) => text
  | inr None => ""
  | inl e => rejection_text e
  end.

(** The message of command mode for a command and its kept output. *)
Definition command_message (command output : string) : string :=
  if JS.truthy (JS.trim output)
  then ("Executed command: " ++ command) ++ " → " ++ JS.trim output
  else "Executed command: " ++ command.

(** ** What the editor rejected during a call *)

Definition rejected {A} (answer : thrown + A) : option thrown :=
  match answer with
  | inl e => Some e
  | inr _ => None
  end.

(** The rejection, if any, with which the editor settles call [r] when the
    log up to that settlement is [before]. *)
Definition rejection (w : remote) (before : log) (r : request) : option thrown :=
  match r with
  | Attach path => rejected (on_attach w before path)
  | CallGetcwd => rejected (on_getcwd w before)
  | GetBuffer => rejected (on_buffer w before)
  | GetName b => rejected (on_name w before b)
  | CallGetpos => rejected (on_getpos w before)
  | GetBuffers => rejected (on_buffers w before)
  | GetLoaded b => rejected (on_loaded w before b)
  | Command cmd => rejected (on_command w before cmd)
  | CallCursor l c => rejected (on_cursor w before l c)
  | Input keys => rejected (on_input w before keys)
  | Close => rejected (on_close w before)
  end.

(** The calls of [rest] that the editor rejected, in the order in which
    they settled, each with what was thrown; [before] is the log that
    precedes [rest]. *)
Fixpoint rejections_from (w : remote) (before rest : log)
    : list (request * thrown) :=
  match rest with
  | [] => []
  | Sent r :: rest' => rejections_from w (before ++ [Sent r])%list rest'
  | Settled r :: rest' =>
      match rejection w before r with
      | Some e => (r, e) :: rejections_from w (before ++ [Settled r])%list rest'
      | None => rejections_from w (before ++ [Settled r])%list rest'
      end
  end.

(** The rejected calls of a whole log. *)
Definition rejections (w : remote) (h : log) : list (request * thrown) :=
  rejections_from w [] h.

(** A computation that hides nothing: it returns only if none of the calls
    it made was rejected, and it throws exactly what the editor threw at
    the last call it made, the calls before having been answered. *)
Definition faithful {A} (c : M A) : Prop :=
  forall w h x h',
    c w h = (x, h') ->
    exists added,
      h' = (h ++ added)%list
      /\ match x with
         | inr _ => rejections_from w h added = []
         | inl e =>
             exists before r,
               added = (before ++ [Settled r])%list
               /\ rejections_from w h before = []
               /\ rejection w (h ++ before)%list r = Some e
         end.

(** [calm], except that every call selected by [bad] is rejected with
    [e]. *)
Definition calm_except (bad : request -> bool) (e : thrown) : remote :=
  {| on_attach := fun h s => if bad (Attach s) then inl e else on_attach calm h s;
     on_getcwd := fun h => if bad CallGetcwd then inl e else on_getcwd calm h;
     on_buffer := fun h => if bad GetBuffer then inl e else on_buffer calm h;
     on_name := fun h b => if bad (GetName b) then inl e else on_name calm h b;
     on_getpos := fun h => if bad CallGetpos then inl e else on_getpos calm h;
     on_buffers := fun h => if bad GetBuffers then inl e else on_buffers calm h;
     on_loaded := fun h b => if bad (GetLoaded b) then inl e else on_loaded calm h b;
     on_command :=
       fun h cmd => if bad (Command cmd) then inl e else on_command calm h cmd;
     on_cursor :=
       fun h l c => if bad (CallCursor l c) then inl e else on_cursor calm h l c;
     on_input := fun h k => if bad (Input k) then inl e else on_input calm h k;
     on_close := fun h => if bad Close then inl e else on_close calm h;
     settle_pick := settle_pick calm |}.

Definition is_getpos (r : request) : bool :=
  match r with CallGetpos => true | _ => false end.

Definition is_loaded_of (b : Z) (r : request) : bool :=
  match r with GetLoaded b' => b' =? b | _ => false end.

Definition is_checktime (r : request) : bool :=
  match r with Command cmd => String.eqb cmd "checktime" | _ => false end.

Definition is_command (r : request) : bool :=
  match r with Command _ => true | _ => false end.

(** A [/tmp] with three entries named like sockets: the first is a socket,
    the status check of the second throws, the third is a regular file. *)
Definition mixed_tmp : filesystem :=
  {| existsSync := fun p => String.eqb p "/tmp";
     readdirSync := fun _ => inr ["nvim-1.sock"; "nvim-2.sock"; "nvim-3.sock"];
     statSync :=
       fun p =>
         if String.eqb p "/tmp/nvim-2.sock" then inl (ErrorObj "EACCES")
         else inr {| isSocket := negb (String.eqb p "/tmp/nvim-3.sock") |} |}.

(** The two turns of the event loop that the callback of one listed buffer
    takes under [Promise.all]. *)
Definition buffer_turns (b : Z) : list log :=
  [ [Settled (GetName b); Sent (GetLoaded b)]; [Settled (GetLoaded b)] ].

(** The turns a callback still has ahead of it. *)
Definition turns_left (t : buffer_task) : list log :=
  match t with
  | AwaitingName buffer => buffer_turns (buf_id buffer)
  | AwaitingLoaded buffer _ => [ [Settled (GetLoaded (buf_id buffer))] ]
  | Fulfilled _ => []
  end.

(** [turns] takes the turns of the callbacks [queues] one at a time: each
    turn is the next one of some callback, no callback's turns change
    order, and none is left. *)
Inductive interleaved : list (list log) -> list log -> Prop :=
| interleaved_done queues :
    Forall (fun q => q = []) queues -> interleaved queues []
| interleaved_turn before turn q after turns :
    interleaved (before ++ q :: after)%list turns ->
    interleaved (before ++ (turn :: q) :: after)%list (turn :: turns).

(** * Properties *)

(** ** The monad *)

Lemma bind_ok {A B} (c : M A) (k : A -> M B) w h a h' :
  c w h = (inr a, h') -> bind c k w h = k a w h'.
Proof. intros E. unfold bind. now rewrite E. Qed.

Lemma bind_thrown {A B} (c : M A) (k : A -> M B) w h e h' :
  c w h = (inl e, h') -> bind c k w h = (inl e, h').
Proof. intros E. unfold bind. now rewrite E. Qed.

Lemma await_run {A} r (answer : remote -> log -> thrown + A) w h :
  await r answer w h = (answer w (asking h r), (h ++ completed [r])%list).
Proof. reflexivity. Qed.

Lemma completed_app rs rs' :
  completed (rs ++ rs') = (completed rs ++ completed rs')%list.
Proof. unfold completed. apply flat_map_app. Qed.

(** ** The session skeleton: its four outcomes *)

Section Session.

Context {A B : Type}.
Variables (instance : NeovimInstance) (calls : M A) (result : A -> B).
Variable w : remote.

Lemma session_attach_fails e :
  attach_outcome w instance = inl e ->
  session instance calls result w [] = (inl e, connected instance).
Proof.
  intros E. unfold session, bind. rewrite await_run.
  unfold attach_outcome in E. now rewrite E.
Qed.

Lemma session_calls_fail e h2 :
  attach_outcome w instance = inr tt ->
  calls w (connected instance) = (inl e, h2) ->
  session instance calls result w [] = (inl e, (h2 ++ completed [Close])%list).
Proof.
  intros E C. unfold session, bind at 1. rewrite await_run.
  unfold attach_outcome in E. rewrite E. cbn [app].
  unfold try_catch at 1. erewrite bind_thrown by exact C.
  unfold bind, try_catch, await, throw, ret.
  now destruct (on_close w _).
Qed.

Lemma session_completes a h2 :
  attach_outcome w instance = inr tt ->
  calls w (connected instance) = (inr a, h2) ->
  on_close w (asking h2 Close) = inr tt ->
  session instance calls result w [] = (inr (result a), (h2 ++ completed [Close])%list).
Proof.
  intros E C K. unfold session, bind at 1. rewrite await_run.
  unfold attach_outcome in E. rewrite E. cbn [app].
  unfold try_catch at 1. erewrite bind_ok by exact C.
  unfold bind, await, ret. unfold asking in K. now rewrite K.
Qed.

Lemma session_close_fails a h2 e :
  attach_outcome w instance = inr tt ->
  calls w (connected instance) = (inr a, h2) ->
  on_close w (asking h2 Close) = inl e ->
  session instance calls result w []
  = (inl e, (h2 ++ completed [Close; Close])%list).
Proof.
  intros E C K. unfold session, bind at 1. rewrite await_run.
  unfold attach_outcome in E. rewrite E. cbn [app].
  unfold try_catch at 1. erewrite bind_ok by exact C.
  unfold bind at 1, await at 1. unfold asking in K. rewrite K.
  unfold bind, try_catch, await, throw, ret.
  clear K. destruct (on_close w _); cbn; now rewrite <- app_assoc.
Qed.

(** A session that returns went through [calls] and one [close]. *)
Lemma session_returns b h' :
  session instance calls result w [] = (inr b, h') ->
  exists a h2,
    attach_outcome w instance = inr tt
    /\ calls w (connected instance) = (inr a, h2)
    /\ on_close w (asking h2 Close) = inr tt
    /\ b = result a /\ h' = (h2 ++ completed [Close])%list.
Proof.
  intros R.
  destruct (attach_outcome w instance) as [e|[]] eqn:E.
  - rewrite (session_attach_fails e E) in R. discriminate.
  - destruct (calls w (connected instance)) as [[e|a] h2] eqn:C.
    + rewrite (session_calls_fail e h2 E C) in R. discriminate.
    + destruct (on_close w (asking h2 Close)) as [e|[]] eqn:K.
      * rewrite (session_close_fails a h2 e E C K) in R. discriminate.
      * rewrite (session_completes a h2 E C K) in R.
        inversion R; subst. now exists a, h2.
Qed.

(** A session that throws: which of the three steps threw. *)
Lemma session_throws e h' :
  session instance calls result w [] = (inl e, h') ->
  (attach_outcome w instance = inl e /\ h' = connected instance)
  \/ (attach_outcome w instance = inr tt
      /\ exists h2, calls w (connected instance) = (inl e, h2)
                    /\ h' = (h2 ++ completed [Close])%list)
  \/ (attach_outcome w instance = inr tt
      /\ exists a h2, calls w (connected instance) = (inr a, h2)
                      /\ on_close w (asking h2 Close) = inl e
                      /\ h' = (h2 ++ completed [Close; Close])%list).
Proof.
  intros R.
  destruct (attach_outcome w instance) as [e0|[]] eqn:E.
  - rewrite (session_attach_fails e0 E) in R. inversion R; subst. now left.
  - right. destruct (calls w (connected instance)) as [[e0|a] h2] eqn:C.
    + rewrite (session_calls_fail e0 h2 E C) in R. inversion R; subst.
      left. split; [reflexivity|]. now exists h2.
    + destruct (on_close w (asking h2 Close)) as [e0|[]] eqn:K.
      * rewrite (session_close_fails a h2 e0 E C K) in R. inversion R; subst.
        right. split; [reflexivity|]. now exists a, h2.
      * rewrite (session_completes a h2 E C K) in R. discriminate.
Qed.

End Session.

(** ** The exported functions as sessions *)

Lemma try_return_ok {A} (body : M A) handler w a h' :
  body w [] = (inr a, h') -> try_return body handler w = (a, h').
Proof. intros E. unfold try_return. now rewrite E. Qed.

Lemma try_return_thrown {A} (body : M A) handler w e h' :
  body w [] = (inl e, h') -> try_return body handler w = (handler e, h').
Proof. intros E. unfold try_return. now rewrite E. Qed.

Lemma details_found fs pid instance :
  getNeovimInstance fs pid = Some instance ->
  getNeovimInstanceDetails fs pid
  = try_return (session instance (snapshot_calls instance) (fun d => d))
               (fun error => error_details instance (connect_failure error)).
Proof. intros F. unfold getNeovimInstanceDetails. now rewrite F. Qed.

Lemma open_found fs pid instance filePath line column endLine endColumn :
  getNeovimInstance fs pid = Some instance ->
  openFileInNeovim fs pid filePath line column endLine endColumn
  = try_return
      (session instance (navigate_calls filePath line column endLine endColumn)
               (open_ok filePath line column))
      (fun error => open_failed filePath (connect_failure error)).
Proof. intros F. unfold openFileInNeovim. now rewrite F. Qed.

Lemma execute_found fs pid instance command isKeySequence :
  getNeovimInstance fs pid = Some instance ->
  executeInNeovim fs pid command isKeySequence
  = try_return
      (session instance (execute_calls command isKeySequence) (exec_ok command))
      (fun error => exec_failed command (connect_failure error)).
Proof. intros F. unfold executeInNeovim. now rewrite F. Qed.

Lemma details_absent fs pid :
  getNeovimInstance fs pid = None ->
  getNeovimInstanceDetails fs pid = return_now (details_not_found pid).
Proof. intros F. unfold getNeovimInstanceDetails. now rewrite F. Qed.

Lemma open_absent fs pid filePath line column endLine endColumn :
  getNeovimInstance fs pid = None ->
  openFileInNeovim fs pid filePath line column endLine endColumn
  = return_now (open_not_found pid).
Proof. intros F. unfold openFileInNeovim. now rewrite F. Qed.

Lemma execute_absent fs pid command isKeySequence :
  getNeovimInstance fs pid = None ->
  executeInNeovim fs pid command isKeySequence
  = return_now (exec_not_found pid command).
Proof. intros F. unfold executeInNeovim. now rewrite F. Qed.

Lemma one_instance_found : getNeovimInstance one_instance 1257 = Some nvim1257.
Proof. reflexivity. Qed.

(** A whole exported function on a found instance: the value comes from
    the session's value, or from its thrown error through the handler. *)
Lemma try_session_cases {A B} instance (calls : M A) (result : A -> B) handler w :
  (exists a h2,
      attach_outcome w instance = inr tt
      /\ calls w (connected instance) = (inr a, h2)
      /\ on_close w (asking h2 Close) = inr tt
      /\ try_return (session instance calls result) handler w
         = (result a, (h2 ++ completed [Close])%list))
  \/ (exists e h', try_return (session instance calls result) handler w
                   = (handler e, h')).
Proof.
  destruct (session instance calls result w []) as [[e|b] h'] eqn:R.
  - right. exists e, h'. now apply try_return_thrown.
  - left. destruct (session_returns _ _ _ _ _ _ R) as (a & h2 & E & C & K & -> & ->).
    exists a, h2. repeat split; trivial. now apply try_return_ok.
Qed.

(** ** What the sequences of calls return *)

Ltac split_calls :=
  repeat match goal with
    | H : (inl _, _) = (inr _, _) |- _ => discriminate H
    | H : (inr _, _) = (inl _, _) |- _ => discriminate H
    | H : (inr _, _) = (inr _, _) |- _ => inversion H; subst; clear H
    | H : (inl _, _) = (inl _, _) |- _ => inversion H; subst; clear H
    | H : context [match ?x with _ => _ end] |- _ => destruct x eqn:?
    end.

Lemma snapshot_calls_value instance w h d h' :
  snapshot_calls instance w h = (inr d, h') ->
  Details.instance d = instance /\ Details.error d = None
  /\ Details.workingDirectory d <> None /\ Details.buffers d <> None
  /\ Details.cursorPosition d <> None.
Proof.
  unfold snapshot_calls, bind, await, ret. intros R. split_calls.
  cbn. repeat split; discriminate.
Qed.

Lemma navigate_calls_value filePath line column endLine endColumn w h m h' :
  navigate_calls filePath line column endLine endColumn w h = (inr m, h') ->
  exists rest, m = "Opened " ++ rest.
Proof.
  unfold navigate_calls, bind, await, ret. intros R.
  destruct line, endLine; split_calls; cbn; eexists; reflexivity.
Qed.

Lemma execute_calls_value command isKeySequence w h out h' :
  execute_calls command isKeySequence w h = (inr out, h') ->
  exists rest, snd out = "Executed " ++ rest.
Proof.
  unfold execute_calls, command_output, bind, try_catch, await, ret. intros R.
  destruct isKeySequence; split_calls; cbn; eexists; reflexivity.
Qed.

(** ** Locating an instance *)

Lemma find_pid_none (p : Z) (l : list NeovimInstance) :
  ~ In p (map pid l) -> find (fun s => pid s =? p) l = None.
Proof.
  induction l as [|s l IH]; cbn; intros N; [reflexivity|].
  destruct (Z.eqb_spec (pid s) p) as [E|_].
  - exfalso. apply N. now left.
  - apply IH. intros I. apply N. now right.
Qed.

Lemma not_discovered fs p :
  ~ In p (map pid (findNeovimSockets fs)) -> getNeovimInstance fs p = None.
Proof. apply find_pid_none. Qed.

Lemma mentions_middle (a s b : string) : Mentions (a ++ s ++ b) s.
Proof. now exists a, b. Qed.

(** ** Error reporting of the three exported functions *)

(** C1, as the specification words it, fails: with the same underlying
    error, a connection that is refused and a connection that is
    established and then rejects its first call give the caller equal
    values, in the snapshot, in navigation and in execution of a key
    sequence. *)
Lemma use_failure_reported_as_connect_failure :
  attach_outcome (refusing (ErrorObj "boom")) nvim1257 = inl (ErrorObj "boom")
  /\ attach_outcome (rejecting (ErrorObj "boom")) nvim1257 = inr tt
  /\ fst (getNeovimInstanceDetails one_instance 1257 (rejecting (ErrorObj "boom")))
     = fst (getNeovimInstanceDetails one_instance 1257 (refusing (ErrorObj "boom")))
  /\ fst (openFileInNeovim one_instance 1257 "f.txt" (Some 10) None None None
            (rejecting (ErrorObj "boom")))
     = fst (openFileInNeovim one_instance 1257 "f.txt" (Some 10) None None None
              (refusing (ErrorObj "boom")))
  /\ fst (executeInNeovim one_instance 1257 "gg" true (rejecting (ErrorObj "boom")))
     = fst (executeInNeovim one_instance 1257 "gg" true (refusing (ErrorObj "boom"))).
Proof. repeat split. Qed.

(** ** Closing the connection *)

(** C2 at its failing input: the editor answers every call and
    [nvim.close()] throws.  The calls of [executeInNeovim] had succeeded,
    yet the function returns the failure built from the close error, and
    [close] is called twice; the same happens to the snapshot and to
    navigation. *)
Theorem close_failure_overrides_success :
  execute_calls ":w" false (unclosable (ErrorObj "shut")) (connected nvim1257)
  = (inr ("", "Executed command: :w"),
     completed [Attach "/tmp/nvim-1257.sock"; Command "w"])
  /\ executeInNeovim one_instance 1257 ":w" false (unclosable (ErrorObj "shut"))
     = (exec_failed ":w" "Failed to connect to Neovim instance: shut",
        completed [Attach "/tmp/nvim-1257.sock"; Command "w"; Close; Close])
  /\ times_closed
       (snd (executeInNeovim one_instance 1257 ":w" false
               (unclosable (ErrorObj "shut")))) = 2%nat
  /\ fst (getNeovimInstanceDetails one_instance 1257 (unclosable (ErrorObj "shut")))
     = error_details nvim1257 "Failed to connect to Neovim instance: shut"
  /\ times_closed
       (snd (getNeovimInstanceDetails one_instance 1257
               (unclosable (ErrorObj "shut")))) = 2%nat
  /\ openFileInNeovim one_instance 1257 "f.txt" None None None None
       (unclosable (ErrorObj "shut"))
     = (open_failed "f.txt" "Failed to connect to Neovim instance: shut",
        completed [Attach "/tmp/nvim-1257.sock"; Command "edit f.txt";
                   Command "checktime"; Close; Close]).
Proof. repeat split. Qed.

(** The part of the release discipline that the code keeps: when the calls
    throw, [close] follows them once, its own failure is swallowed, and the
    caller gets the failure of the calls. *)
Lemma close_once_after_failed_calls fs pid instance w e h2 command isKeySequence :
  getNeovimInstance fs pid = Some instance ->
  attach_outcome w instance = inr tt ->
  execute_calls command isKeySequence w (connected instance) = (inl e, h2) ->
  executeInNeovim fs pid command isKeySequence w
  = (exec_failed command (connect_failure e), (h2 ++ completed [Close])%list).
Proof.
  intros F E C. rewrite (execute_found _ _ _ _ _ F).
  erewrite try_return_thrown
    by (eapply session_calls_fail; [exact E | exact C]).
  reflexivity.
Qed.

(** And when the calls return and [close] does not throw, [close] follows
    them once and the caller gets their result. *)
Lemma close_once_after_calls fs pid instance w out h2 command isKeySequence :
  getNeovimInstance fs pid = Some instance ->
  attach_outcome w instance = inr tt ->
  execute_calls command isKeySequence w (connected instance) = (inr out, h2) ->
  on_close w (asking h2 Close) = inr tt ->
  executeInNeovim fs pid command isKeySequence w
  = (exec_ok command out, (h2 ++ completed [Close])%list).
Proof.
  intros F E C K. rewrite (execute_found _ _ _ _ _ F).
  erewrite try_return_ok
    by (eapply session_completes; [exact E | exact C | exact K]).
  reflexivity.
Qed.

(** ** Shape of the returned values *)

(** C8: whatever the inputs, the file system and the editor do, the value
    returned by [openFileInNeovim] and the value returned by
    [executeInNeovim] carry an [error] if and only if [success] is false,
    and a non-empty [message]. *)
Theorem results_keep_invariant :
  forall fs p filePath line column endLine endColumn command isKeySequence w,
    open_result_invariant
      (fst (openFileInNeovim fs p filePath line column endLine endColumn w))
    /\ exec_result_invariant
         (fst (executeInNeovim fs p command isKeySequence w)).
Proof.
  intros fs p filePath line column endLine endColumn command isKeySequence w.
  unfold open_result_invariant, exec_result_invariant.
  destruct (getNeovimInstance fs p) as [instance|] eqn:F.
  - rewrite (open_found _ _ _ _ _ _ _ _ F), (execute_found _ _ _ _ _ F). split.
    + destruct (try_session_cases instance
                  (navigate_calls filePath line column endLine endColumn)
                  (open_ok filePath line column)
                  (fun error => open_failed filePath (connect_failure error)) w)
        as [(m & h2 & _ & C & _ & ->)|(e & h' & ->)]; cbn.
      * destruct (navigate_calls_value _ _ _ _ _ _ _ _ _ C) as (rest & ->).
        repeat split; try congruence; discriminate.
      * repeat split; try congruence; discriminate.
    + destruct (try_session_cases instance
                  (execute_calls command isKeySequence) (exec_ok command)
                  (fun error => exec_failed command (connect_failure error)) w)
        as [(out & h2 & _ & C & _ & ->)|(e & h' & ->)]; cbn.
      * destruct (execute_calls_value _ _ _ _ _ _ C) as (rest & ->).
        repeat split; try congruence; discriminate.
      * repeat split; try congruence; discriminate.
  - rewrite (open_absent _ _ _ _ _ _ _ F), (execute_absent _ _ _ _ F). cbn.
    repeat split; try congruence; discriminate.
Qed.

(** ** An instance that is not there *)

(** C7: for a pid that discovery does not list, each of the three
    functions returns at once, its log empty (no [attach], no call at
    all); the snapshot echoes the pid with an empty socket path and an
    error naming the pid; navigation and execution return [success:false]
    with an error naming the pid. *)
Theorem absent_pid_reported_without_connecting :
  forall fs p w filePath line column endLine endColumn command isKeySequence,
    ~ In p (map pid (findNeovimSockets fs)) ->
    getNeovimInstanceDetails fs p w
    = (error_details {| socket := ""; pid := p |}
         ("Neovim instance with PID " ++ JS.number_to_string p ++ " not found"),
       [])
    /\ Mentions ("Neovim instance with PID " ++ JS.number_to_string p ++ " not found")
                (JS.number_to_string p)
    /\ snd (openFileInNeovim fs p filePath line column endLine endColumn w) = []
    /\ Open.success
         (fst (openFileInNeovim fs p filePath line column endLine endColumn w))
       = false
    /\ Open.error
         (fst (openFileInNeovim fs p filePath line column endLine endColumn w))
       = Some ("PID " ++ JS.number_to_string p ++ " not found")
    /\ snd (executeInNeovim fs p command isKeySequence w) = []
    /\ Exec.success (fst (executeInNeovim fs p command isKeySequence w)) = false
    /\ Exec.error (fst (executeInNeovim fs p command isKeySequence w))
       = Some ("PID " ++ JS.number_to_string p ++ " not found")
    /\ Mentions ("PID " ++ JS.number_to_string p ++ " not found")
                (JS.number_to_string p).
Proof.
  intros fs p w filePath line column endLine endColumn command isKeySequence N.
  apply not_discovered in N.
  rewrite (details_absent _ _ N), (open_absent _ _ _ _ _ _ _ N),
          (execute_absent _ _ _ _ N).
  split; [reflexivity|]. split; [apply mentions_middle|].
  do 6 (split; [reflexivity|]). apply mentions_middle.
Qed.

Lemma absent_pid_reported_without_connecting_witness :
  getNeovimInstanceDetails one_instance 9999999 calm
  = (error_details {| socket := ""; pid := 9999999 |}
       "Neovim instance with PID 9999999 not found", [])
  /\ Open.error (fst (openFileInNeovim one_instance 9999999 "f.txt"
                        None None None None calm))
     = Some "PID 9999999 not found"
  /\ Exec.error (fst (executeInNeovim one_instance 9999999 ":w" false calm))
     = Some "PID 9999999 not found".
Proof.
  assert (N : ~ In 9999999 (map pid (findNeovimSockets one_instance))).
  { cbn. intros [E|[]]. discriminate E. }
  destruct (absent_pid_reported_without_connecting
              one_instance 9999999 calm "f.txt" None None None None ":w" false N)
    as (D & _ & _ & _ & O & _ & _ & X & _).
  split; [exact D|]. split; [exact O | exact X].
Defined.

(** ** Execution *)

Lemma string_app_assoc (a b c : string) : (a ++ b) ++ c = a ++ b ++ c.
Proof. induction a as [|x a IH]; cbn; [reflexivity | now rewrite IH]. Qed.

Lemma string_app_nil (a : string) : a ++ "" = a.
Proof. induction a as [|x a IH]; cbn; [reflexivity | now rewrite IH]. Qed.

Lemma command_output_rejected cmd w h e :
  on_command w (asking h (Command cmd)) cmd = inl e ->
  command_output cmd w h
  = (inr (rejection_text e), (h ++ completed [Command cmd])%list).
Proof.
  intros R. unfold command_output, try_catch, bind. rewrite await_run, R.
  reflexivity.
Qed.

Lemma execute_calls_rejected command w h e :
  on_command w (asking h (Command (dispatched command))) (dispatched command)
  = inl e ->
  execute_calls command false w h
  = (inr (rejection_text e,
          if JS.truthy (JS.trim (rejection_text e))
          then ("Executed command: " ++ command) ++ " → "
                 ++ JS.trim (rejection_text e)
          else "Executed command: " ++ command),
     (h ++ completed [Command (dispatched command)])%list).
Proof.
  intros R. unfold execute_calls, dispatched in *.
  assert (O : (if JS.startsWith command ":"
               then command_output (JS.substring_from 1 command)
               else command_output command) w h
              = (inr (rejection_text e),
                 (h ++ completed
                         [Command (if JS.startsWith command ":"
                                   then JS.substring_from 1 command
                                   else command)])%list)).
  { destruct (JS.startsWith command ":"); now apply command_output_rejected. }
  rewrite (bind_ok _ _ _ _ _ _ O).
  destruct (rejection_text e) as [|c text]; [reflexivity|].
  cbn [JS.truthy andb]. now destruct (JS.truthy _).
Qed.

(** C4: on a found instance whose connection is established.  In command
    mode ([isKeySequence] false), for every command string whose
    [nvim.command] call the editor rejects, the rejection is absorbed: the
    calls of the body return normally, and once [close] completes the
    function returns [success:true] with no [error], the rejection text as
    [output] (absent when that text is empty) and its trimmed form
    appended to the message after an arrow (nothing appended when it is
    blank); the only call made is the command, its leading colon removed.
    In key-sequence mode, once [nvim.input] and [close] complete the
    function returns [success:true] with the message naming the sequence;
    the only call made is the input of the string as given, colon
    included. *)
Theorem rejected_command_still_succeeds :
  forall fs p instance w command,
    getNeovimInstance fs p = Some instance ->
    attach_outcome w instance = inr tt ->
    (forall e,
        on_command w (asking (connected instance) (Command (dispatched command)))
                   (dispatched command) = inl e ->
        (exists out, execute_calls command false w (connected instance)
                     = (inr out,
                        completed [Attach (socket instance);
                                   Command (dispatched command)]))
        /\ (on_close w (asking (completed [Attach (socket instance);
                                           Command (dispatched command)]) Close)
            = inr tt ->
            executeInNeovim fs p command false w
            = ({| Exec.success := true;
                  Exec.message :=
                    if JS.truthy (JS.trim (rejection_text e))
                    then ("Executed command: " ++ command) ++ " → "
                           ++ JS.trim (rejection_text e)
                    else "Executed command: " ++ command;
                  Exec.command := Some command;
                  Exec.output := JS.or_undefined (rejection_text e);
                  Exec.error := None |},
               completed [Attach (socket instance);
                          Command (dispatched command); Close])
            /\ Mentions
                 (Exec.message (fst (executeInNeovim fs p command false w)))
                 (JS.trim (rejection_text e))))
    /\ (on_input w (asking (connected instance) (Input command)) command = inr tt ->
        on_close w (asking (completed [Attach (socket instance); Input command])
                           Close) = inr tt ->
        executeInNeovim fs p command true w
        = ({| Exec.success := true;
              Exec.message := "Executed key sequence: " ++ command;
              Exec.command := Some command;
              Exec.output := None;
              Exec.error := None |},
           completed [Attach (socket instance); Input command; Close])).
Proof.
  intros fs p instance w command F E. split.
  - intros e R.
    pose proof (execute_calls_rejected command w (connected instance) e R) as C.
    split; [eexists; exact C|]. intros K.
    assert (X : executeInNeovim fs p command false w
                = (exec_ok command
                     (rejection_text e,
                      if JS.truthy (JS.trim (rejection_text e))
                      then ("Executed command: " ++ command) ++ " → "
                             ++ JS.trim (rejection_text e)
                      else "Executed command: " ++ command),
                   completed [Attach (socket instance);
                              Command (dispatched command); Close])).
    { rewrite (execute_found _ _ _ _ _ F).
      erewrite try_return_ok
        by (eapply session_completes; [exact E | exact C | exact K]).
      reflexivity. }
    split; [exact X|]. rewrite X. cbn [fst exec_ok Exec.message snd].
    destruct (JS.truthy (JS.trim (rejection_text e))) eqn:T.
    + exists ("Executed command: " ++ command ++ " → "), "".
      now rewrite !string_app_assoc, string_app_nil.
    + destruct (JS.trim (rejection_text e)); [|discriminate T].
      now exists "", ("Executed command: " ++ command).
  - intros I K.
    assert (C : execute_calls command true w (connected instance)
                = (inr ("", "Executed key sequence: " ++ command),
                   completed [Attach (socket instance); Input command])).
    { unfold execute_calls, bind. rewrite await_run, I. reflexivity. }
    rewrite (execute_found _ _ _ _ _ F).
    erewrite try_return_ok
      by (eapply session_completes; [exact E | exact C | exact K]).
    reflexivity.
Qed.

Lemma rejected_command_still_succeeds_witness :
  executeInNeovim one_instance 1257 ":nosuchcommand" false
    (rejecting (ErrorObj "E492: Not an editor command: nosuchcommand"))
  = ({| Exec.success := true;
        Exec.message :=
          "Executed command: :nosuchcommand → E492: Not an editor command: nosuchcommand";
        Exec.command := Some ":nosuchcommand";
        Exec.output := Some "E492: Not an editor command: nosuchcommand";
        Exec.error := None |},
     completed [Attach "/tmp/nvim-1257.sock"; Command "nosuchcommand"; Close])
  /\ executeInNeovim one_instance 1257 ":ihello<Esc>" true calm
     = ({| Exec.success := true;
           Exec.message := "Executed key sequence: :ihello<Esc>";
           Exec.command := Some ":ihello<Esc>";
           Exec.output := None;
           Exec.error := None |},
        completed [Attach "/tmp/nvim-1257.sock"; Input ":ihello<Esc>"; Close]).
Proof.
  split.
  - exact (proj1 (proj2 (proj1 (rejected_command_still_succeeds
                                  one_instance 1257 nvim1257
                                  (rejecting (ErrorObj "E492: Not an editor command: nosuchcommand"))
                                  ":nosuchcommand" eq_refl eq_refl)
                               (ErrorObj "E492: Not an editor command: nosuchcommand")
                               eq_refl)
                        eq_refl)).
  - exact (proj2 (rejected_command_still_succeeds
                    one_instance 1257 nvim1257 calm ":ihello<Esc>"
                    eq_refl eq_refl)
                 eq_refl eq_refl).
Defined.

(** ** Navigation *)

Lemma navigate_calls_log filePath line column endLine endColumn w h m h' :
  navigate_calls filePath line column endLine endColumn w h = (inr m, h') ->
  h' = (h ++ completed
               (navigation_requests filePath line column endLine endColumn))%list.
Proof.
  unfold navigate_calls, bind, await, ret. intros R.
  destruct line, endLine; split_calls; cbn; now rewrite <- ?app_assoc.
Qed.

(** The log of a navigation that reports success. *)
Lemma open_success_log fs p filePath line column endLine endColumn w r h :
  openFileInNeovim fs p filePath line column endLine endColumn w = (r, h) ->
  Open.success r = true ->
  exists instance,
    getNeovimInstance fs p = Some instance
    /\ h = completed
             (Attach (socket instance)
              :: navigation_requests filePath line column endLine endColumn
              ++ [Close]).
Proof.
  intros R S.
  destruct (getNeovimInstance fs p) as [instance|] eqn:F.
  - exists instance. split; [reflexivity|].
    rewrite (open_found _ _ _ _ _ _ _ _ F) in R.
    destruct (try_session_cases instance
                (navigate_calls filePath line column endLine endColumn)
                (open_ok filePath line column)
                (fun error => open_failed filePath (connect_failure error)) w)
      as [(m & h2 & _ & C & _ & X)|(e & h' & X)];
      rewrite X in R; inversion R; subst; [|discriminate S].
    rewrite (navigate_calls_log _ _ _ _ _ _ _ _ _ C).
    change (Attach (socket instance)
            :: navigation_requests filePath line column endLine endColumn
            ++ [Close])
      with ([Attach (socket instance)]
            ++ navigation_requests filePath line column endLine endColumn
            ++ [Close])%list.
    now rewrite !completed_app, app_assoc.
  - rewrite (open_absent _ _ _ _ _ _ _ F) in R. inversion R; subst.
    discriminate S.
Qed.

(** Whatever happens, a navigation issues no call outside its list. *)
Lemma navigate_calls_issue filePath line column endLine endColumn w h x h' :
  navigate_calls filePath line column endLine endColumn w h = (x, h') ->
  forall q, In (Sent q) h' ->
            In (Sent q) h
            \/ In q (navigation_requests filePath line column endLine endColumn).
Proof.
  unfold navigate_calls, bind, await, ret. intros R q.
  destruct line, endLine; split_calls;
    match goal with H : (_, _) = (_, _) |- _ => injection H as <- <- end;
    rewrite ?in_app_iff; cbn;
    intuition (try discriminate;
               match goal with
               | E : Sent _ = Sent _ |- _ => injection E as <-; tauto
               end).
Qed.

Lemma completed_issues q rs : In (Sent q) (completed rs) -> In q rs.
Proof.
  induction rs as [|r rs IH]; cbn; [tauto|].
  intros [E|[E|I]]; try discriminate; [injection E as <-|]; tauto.
Qed.

Lemma open_issues fs p filePath line column endLine endColumn w r h :
  openFileInNeovim fs p filePath line column endLine endColumn w = (r, h) ->
  forall q, In (Sent q) h ->
            (exists path, q = Attach path) \/ q = Close
            \/ In q (navigation_requests filePath line column endLine endColumn).
Proof.
  intros R q I.
  destruct (getNeovimInstance fs p) as [instance|] eqn:F.
  - assert (A : In (Sent q) (connected instance) -> exists path, q = Attach path).
    { intros J. apply completed_issues in J. destruct J as [<-|[]]. now eexists. }
    assert (K : forall closes, In (Sent q) (completed closes) ->
                               (forall c, In c closes -> c = Close) -> q = Close).
    { intros closes J Cl. apply Cl. now apply completed_issues. }
    assert (N : forall x h2,
               navigate_calls filePath line column endLine endColumn
                              w (connected instance) = (x, h2) ->
               forall closes, (forall c, In c closes -> c = Close) ->
               In (Sent q) (h2 ++ completed closes) ->
               (exists path, q = Attach path) \/ q = Close
               \/ In q (navigation_requests filePath line column endLine endColumn)).
    { intros x h2 C closes Cl J. apply in_app_iff in J. destruct J as [J|J].
      - destruct (navigate_calls_issue _ _ _ _ _ _ _ _ _ C q J); auto.
      - right. left. now apply (K closes). }
    rewrite (open_found _ _ _ _ _ _ _ _ F) in R. unfold try_return in R.
    destruct (session instance
                (navigate_calls filePath line column endLine endColumn)
                (open_ok filePath line column) w []) as [[e|b] h'] eqn:X;
      injection R as <- <-.
    + destruct (session_throws _ _ _ _ _ _ X)
        as [(_ & ->)|[(_ & h2 & C & ->)|(_ & m & h2 & C & _ & ->)]].
      * auto.
      * apply (N _ _ C [Close]); [|exact I]. intros c [<-|[]]. reflexivity.
      * apply (N _ _ C [Close; Close]); [|exact I].
        intros c [<-|[<-|[]]]; reflexivity.
    + destruct (session_returns _ _ _ _ _ _ X) as (m & h2 & _ & C & _ & _ & ->).
      apply (N _ _ C [Close]); [|exact I]. intros c [<-|[]]. reflexivity.
  - rewrite (open_absent _ _ _ _ _ _ _ F) in R. injection R as <- <-.
    destruct I.
Qed.

(** C5: whatever the outcome of a navigation, the selection key [v] is
    sent only if both [line] and [endLine] are given.  In a navigation
    that reports success: a given [line] with [column] omitted puts the
    cursor at column 1; [v] is sent if (and so, with the above, exactly
    if) both [line] and [endLine] are given; with [endColumn] omitted the
    selection is extended to column 999 as such.  With [line] 10 alone
    the calls are edit, checktime and cursor (10,1), no selection; with
    [line] 10 and [endLine] 20 they are edit, checktime, cursor (10,1),
    [v] and cursor (20,999). *)
Theorem navigation_column_defaults :
  forall fs p filePath line column endLine endColumn w r h,
    openFileInNeovim fs p filePath line column endLine endColumn w = (r, h) ->
    (In (Sent (Input "v")) h -> line <> None /\ endLine <> None)
    /\ (Open.success r = true ->
        (forall l, line = Some l -> column = None -> In (Sent (CallCursor l 1)) h)
        /\ (In (Sent (Input "v")) h <-> line <> None /\ endLine <> None)
        /\ (forall l el, line = Some l -> endLine = Some el -> endColumn = None ->
                         In (Sent (CallCursor el 999)) h)
        /\ (line = Some 10 -> column = None -> endLine = None ->
            exists instance,
              h = completed [Attach (socket instance);
                             Command ("edit " ++ filePath);
                             Command "checktime"; CallCursor 10 1; Close])
        /\ (line = Some 10 -> column = None -> endLine = Some 20 ->
            endColumn = None ->
            exists instance,
              h = completed [Attach (socket instance);
                             Command ("edit " ++ filePath);
                             Command "checktime"; CallCursor 10 1; Input "v";
                             CallCursor 20 999; Close])).
Proof.
  intros fs p filePath line column endLine endColumn w r h R.
  assert (V : In (Sent (Input "v")) h -> line <> None /\ endLine <> None).
  { intros I.
    destruct (open_issues _ _ _ _ _ _ _ _ _ _ R _ I) as [(path & E)|[E|J]];
      try discriminate.
    destruct line, endLine; cbn in J; try (split; discriminate);
      exfalso; repeat (destruct J as [J|J]; [discriminate J|]); exact J. }
  split; [exact V|]. intros S.
  destruct (open_success_log _ _ _ _ _ _ _ _ _ _ R S) as (instance & _ & E).
  split; [|split; [|split; [|split]]].
  - intros l -> ->. subst h. destruct endLine; cbn; tauto.
  - split; [exact V|].
    intros [L EL]. destruct line as [l|]; [|congruence].
    destruct endLine as [el|]; [|congruence]. subst h. cbn. tauto.
  - intros l el -> -> ->. subst h. cbn. tauto.
  - intros -> -> ->. now exists instance.
  - intros -> -> -> ->. now exists instance.
Qed.

Lemma navigation_column_defaults_witness :
  In (Sent (CallCursor 10 1))
     (snd (openFileInNeovim one_instance 1257 "f.txt" (Some 10) None (Some 20) None calm))
  /\ In (Sent (Input "v"))
        (snd (openFileInNeovim one_instance 1257 "f.txt" (Some 10) None (Some 20) None calm))
  /\ In (Sent (CallCursor 20 999))
        (snd (openFileInNeovim one_instance 1257 "f.txt" (Some 10) None (Some 20) None calm))
  /\ ~ In (Sent (Input "v"))
        (snd (openFileInNeovim one_instance 1257 "f.txt" (Some 10) None None None calm)).
Proof.
  pose proof (navigation_column_defaults
                one_instance 1257 "f.txt" (Some 10) None (Some 20) None calm
                _ _ eq_refl) as (_ & S).
  destruct (S eq_refl) as (A & B & C & _).
  split; [exact (A 10 eq_refl eq_refl)|]. split; [|split].
  - apply (proj2 B). split; discriminate.
  - exact (C 10 20 eq_refl eq_refl eq_refl).
  - intros I.
    destruct (proj1 (navigation_column_defaults
                       one_instance 1257 "f.txt" (Some 10) None None None calm
                       _ _ eq_refl) I) as (_ & N).
    now apply N.
Defined.

Lemma navigate_calls_zero_column filePath line endLine endColumn :
  navigate_calls filePath line (Some 0) endLine endColumn
  = navigate_calls filePath line None endLine endColumn.
Proof. reflexivity. Qed.

Lemma navigate_calls_zero_end filePath line column endLine :
  navigate_calls filePath line column endLine (Some 0)
  = navigate_calls filePath line column endLine None.
Proof. reflexivity. Qed.

(** Two sessions over the same calls end alike, whatever object each
    builds from the value of the calls. *)
Lemma session_same_calls {A B} instance (calls : M A) (result result' : A -> B) w :
  (exists e h, session instance calls result w [] = (inl e, h)
               /\ session instance calls result' w [] = (inl e, h))
  \/ (exists a h, session instance calls result w [] = (inr (result a), h)
                  /\ session instance calls result' w [] = (inr (result' a), h)).
Proof.
  destruct (attach_outcome w instance) as [e|[]] eqn:E.
  - left. exists e, (connected instance).
    split; now apply session_attach_fails.
  - destruct (calls w (connected instance)) as [[e|a] h2] eqn:C.
    + left. exists e, (h2 ++ completed [Close])%list.
      split; now apply session_calls_fail.
    + destruct (on_close w (asking h2 Close)) as [e|[]] eqn:K.
      * left. exists e, (h2 ++ completed [Close; Close])%list.
        split; now apply session_close_fails with (a := a).
      * right. exists a, (h2 ++ completed [Close])%list.
        split; now apply session_completes.
Qed.

(** The echo fields apart, what a navigation returns and logs depends on
    its calls only. *)
Lemma open_depends_on_calls fs p filePath line column column' endLine endColumn
      endColumn' w :
  navigate_calls filePath line column endLine endColumn
  = navigate_calls filePath line column' endLine endColumn' ->
  snd (openFileInNeovim fs p filePath line column endLine endColumn w)
  = snd (openFileInNeovim fs p filePath line column' endLine endColumn' w)
  /\ Open.success (fst (openFileInNeovim fs p filePath line column endLine endColumn w))
     = Open.success (fst (openFileInNeovim fs p filePath line column' endLine endColumn' w))
  /\ Open.message (fst (openFileInNeovim fs p filePath line column endLine endColumn w))
     = Open.message (fst (openFileInNeovim fs p filePath line column' endLine endColumn' w))
  /\ Open.error (fst (openFileInNeovim fs p filePath line column endLine endColumn w))
     = Open.error (fst (openFileInNeovim fs p filePath line column' endLine endColumn' w)).
Proof.
  intros N.
  destruct (getNeovimInstance fs p) as [instance|] eqn:F.
  - rewrite !(open_found _ _ _ _ _ _ _ _ F), N.
    destruct (session_same_calls instance
                (navigate_calls filePath line column' endLine endColumn')
                (open_ok filePath line column) (open_ok filePath line column') w)
      as [(e & h & X & Y)|(m & h & X & Y)].
    + rewrite (try_return_thrown _ _ _ _ _ X), (try_return_thrown _ _ _ _ _ Y).
      now repeat split.
    + rewrite (try_return_ok _ _ _ _ _ X), (try_return_ok _ _ _ _ _ Y).
      now repeat split.
  - rewrite !(open_absent _ _ _ _ _ _ _ F). now repeat split.
Qed.

(** C10: an explicit [column] of 0 is treated as an omitted one: the same
    calls are made and the same success, message and error come back, and
    in a navigation that reports success with a [line] the cursor call
    uses column 1.  An explicit [endColumn] of 0 is treated as an omitted
    one: the function returns the same value and log, and in a navigation
    that reports success with [line] and [endLine] the selection is
    extended to column 999. *)
Theorem falsy_columns_take_defaults :
  forall fs p filePath line column endLine endColumn w,
    (snd (openFileInNeovim fs p filePath line (Some 0) endLine endColumn w)
     = snd (openFileInNeovim fs p filePath line None endLine endColumn w)
     /\ Open.success (fst (openFileInNeovim fs p filePath line (Some 0) endLine endColumn w))
        = Open.success (fst (openFileInNeovim fs p filePath line None endLine endColumn w))
     /\ Open.message (fst (openFileInNeovim fs p filePath line (Some 0) endLine endColumn w))
        = Open.message (fst (openFileInNeovim fs p filePath line None endLine endColumn w))
     /\ Open.error (fst (openFileInNeovim fs p filePath line (Some 0) endLine endColumn w))
        = Open.error (fst (openFileInNeovim fs p filePath line None endLine endColumn w)))
    /\ openFileInNeovim fs p filePath line column endLine (Some 0) w
       = openFileInNeovim fs p filePath line column endLine None w
    /\ (forall l,
          line = Some l ->
          Open.success (fst (openFileInNeovim fs p filePath line (Some 0) endLine endColumn w))
          = true ->
          In (Sent (CallCursor l 1))
             (snd (openFileInNeovim fs p filePath line (Some 0) endLine endColumn w)))
    /\ (forall l el,
          line = Some l -> endLine = Some el ->
          Open.success (fst (openFileInNeovim fs p filePath line column endLine (Some 0) w))
          = true ->
          In (Sent (CallCursor el 999))
             (snd (openFileInNeovim fs p filePath line column endLine (Some 0) w))).
Proof.
  intros fs p filePath line column endLine endColumn w.
  split; [|split; [|split]].
  - apply open_depends_on_calls, navigate_calls_zero_column.
  - reflexivity.
  - intros l -> S.
    destruct (openFileInNeovim fs p filePath (Some l) (Some 0) endLine endColumn w)
      as [r h] eqn:R.
    destruct (open_success_log _ _ _ _ _ _ _ _ _ _ R S) as (instance & _ & ->).
    destruct endLine; cbn; tauto.
  - intros l el -> -> S.
    destruct (openFileInNeovim fs p filePath (Some l) column (Some el) (Some 0) w)
      as [r h] eqn:R.
    destruct (open_success_log _ _ _ _ _ _ _ _ _ _ R S) as (instance & _ & ->).
    cbn. tauto.
Qed.

Lemma falsy_columns_take_defaults_witness :
  In (Sent (CallCursor 10 1))
     (snd (openFileInNeovim one_instance 1257 "f.txt" (Some 10) (Some 0)
             (Some 20) (Some 0) calm))
  /\ In (Sent (CallCursor 20 999))
        (snd (openFileInNeovim one_instance 1257 "f.txt" (Some 10) (Some 0)
                (Some 20) (Some 0) calm)).
Proof.
  pose proof (falsy_columns_take_defaults
                one_instance 1257 "f.txt" (Some 10) (Some 0) (Some 20) (Some 0) calm)
    as (_ & _ & A & B).
  split.
  - exact (A 10 eq_refl eq_refl).
  - exact (B 10 20 eq_refl eq_refl eq_refl).
Defined.

(** ** Discovery *)

Lemma findNeovimSockets_missing_directory fs :
  existsSync fs "/tmp" = false -> findNeovimSockets fs = [].
Proof. intros E. unfold findNeovimSockets. now rewrite E. Qed.

Lemma findNeovimSockets_unreadable_directory fs e :
  readdirSync fs "/tmp" = inl e -> findNeovimSockets fs = [].
Proof.
  intros E. unfold findNeovimSockets. rewrite E. now destruct (negb _).
Qed.

Lemma prefix_split (p s : string) :
  String.prefix p s = true -> s = p ++ JS.substring_from (String.length p) s.
Proof.
  revert s. induction p as [|c p IH]; intros s; [reflexivity|].
  destruct s as [|d s]; cbn; [discriminate|].
  destruct (ascii_dec c d) as [->|]; [|discriminate].
  intros P. now rewrite <- (IH s P).
Qed.

Lemma span_digits_split (s ds rest : string) :
  JS.span_digits s = (ds, rest) -> s = ds ++ rest.
Proof.
  revert ds rest. induction s as [|c s IH]; cbn; intros ds rest E.
  - now inversion E.
  - destruct (JS.is_digit c).
    + destruct (JS.span_digits s) as [ds' rest']. inversion E; subst.
      cbn. now rewrite <- (IH ds' rest eq_refl).
    + now inversion E.
Qed.

Lemma length_app (a b : string) :
  String.length (a ++ b) = (String.length a + String.length b)%nat.
Proof. induction a as [|c a IH]; cbn; [reflexivity | now rewrite IH]. Qed.

Lemma substring_whole (s : string) : String.substring 0 (String.length s) s = s.
Proof. induction s as [|c s IH]; cbn; [reflexivity | now rewrite IH]. Qed.

Lemma substring_after (a s : string) :
  String.substring (String.length a) (String.length s) (a ++ s) = s.
Proof. induction a as [|c a IH]; cbn; [apply substring_whole | exact IH]. Qed.

Lemma endsWith_app (a s : string) : JS.endsWith (a ++ s) s = true.
Proof.
  unfold JS.endsWith. rewrite length_app.
  replace (String.length a + String.length s - String.length s)%nat
    with (String.length a) by lia.
  rewrite substring_after, String.eqb_refl, andb_true_r.
  apply Nat.leb_le. lia.
Qed.

(** On a name of the documented form the tests of the code agree with the
    specification's, and the captured group is the digit run. *)
Lemma instance_name_accepted (file : string) :
  is_instance_name file = true ->
  JS.startsWith file "nvim-" && JS.endsWith file ".sock" = true
  /\ JS.match_nvim_sock file = Some (digit_run file).
Proof.
  unfold is_instance_name, digit_run, JS.startsWith. intros I.
  apply andb_prop in I. destruct I as [P I].
  destruct (JS.span_digits (JS.substring_from 5 file)) as [ds rest] eqn:S.
  apply andb_prop in I. destruct I as [T R].
  apply String.eqb_eq in R. subst rest. split.
  - rewrite P. cbn [andb].
    rewrite (prefix_split _ _ P). cbn [String.length].
    rewrite (span_digits_split _ _ _ S), <- string_app_assoc.
    apply endsWith_app.
  - assert (H : JS.match_here file = Some ds).
    { unfold JS.match_here. now rewrite P, S, T. }
    destruct file; cbn [JS.match_nvim_sock]; now rewrite H.
Qed.

Lemma scan_entry_regular fs dir sockets file :
  (JS.startsWith file "nvim-" && JS.endsWith file ".sock" = true ->
   is_instance_name file = true) ->
  scan_entry fs dir sockets file = (sockets ++ discover_entry fs dir file)%list.
Proof.
  intros Reg. unfold scan_entry, discover_entry.
  destruct (is_instance_name file) eqn:I.
  - destruct (instance_name_accepted file I) as [-> ->].
    destruct (statSync fs (join dir file)) as [e|stats];
      [now rewrite app_nil_r|].
    destruct (isSocket stats); [reflexivity | now rewrite app_nil_r].
  - destruct (JS.startsWith file "nvim-" && JS.endsWith file ".sock");
      [now discriminate Reg | now rewrite app_nil_r].
Qed.

Lemma scan_regular fs dir files :
  (forall file, In file files ->
                JS.startsWith file "nvim-" && JS.endsWith file ".sock" = true ->
                is_instance_name file = true) ->
  forall sockets,
    fold_left (scan_entry fs dir) files sockets
    = (sockets ++ flat_map (discover_entry fs dir) files)%list.
Proof.
  induction files as [|file files IH]; intros Reg sockets; cbn.
  - now rewrite app_nil_r.
  - rewrite scan_entry_regular by (apply Reg; now left).
    rewrite IH by (intros f I; apply Reg; now right).
    now rewrite app_assoc.
Qed.

(** Where the code and section 4.1 agree: a directory in which every entry
    that starts with [nvim-] and ends with [.sock] has a run of digits, and
    nothing else, in between. *)
Lemma findNeovimSockets_regular fs :
  (forall files file,
      readdirSync fs "/tmp" = inr files -> In file files ->
      JS.startsWith file "nvim-" && JS.endsWith file ".sock" = true ->
      is_instance_name file = true) ->
  findNeovimSockets fs = discover fs.
Proof.
  intros Reg. unfold findNeovimSockets, discover.
  destruct (existsSync fs "/tmp"); cbn [negb]; [|reflexivity].
  destruct (readdirSync fs "/tmp") as [e|files] eqn:D; [reflexivity|].
  now rewrite scan_regular by (intros f I; now apply (Reg files)).
Qed.

(** C6 at its failing input: an entry named [nvim-x-nvim-5.sock] that is a
    socket.  Its name is not [nvim-<digits>.sock], so discovery as claimed
    skips it; the code's unanchored pattern finds [nvim-5.sock] inside
    the name and returns an instance with pid 5. *)
Theorem unanchored_pattern_admits_odd_entry :
  is_instance_name "nvim-x-nvim-5.sock" = false
  /\ discover odd_entry = []
  /\ findNeovimSockets odd_entry
     = [ {| socket := "/tmp/nvim-x-nvim-5.sock"; pid := 5 |} ].
Proof. split; [|split]; reflexivity. Qed.

(** ** The buffer list under [Promise.all] *)

Lemma pick_pending_some k ts before t after :
  pick_pending k ts = Some (before, t, after) ->
  ts = (before ++ t :: after)%list /\ is_pending t = true.
Proof.
  revert k before. induction ts as [|x ts IH]; intros k before; cbn;
    [discriminate|].
  destruct (is_pending x) eqn:P.
  - destruct k as [|k].
    + intros E. inversion E; subst. now split.
    + destruct (pick_pending k ts) as [[[b y] a]|] eqn:Q; [|discriminate].
      intros E. inversion E; subst. destruct (IH _ _ Q) as [-> I]. now split.
  - destruct (pick_pending k ts) as [[[b y] a]|] eqn:Q; [|discriminate].
    intros E. inversion E; subst. destruct (IH _ _ Q) as [-> I]. now split.
Qed.

Lemma pick_pending_in_range k ts :
  (k < pending_count ts)%nat -> pick_pending k ts <> None.
Proof.
  unfold pending_count. revert k. induction ts as [|x ts IH]; intros k; cbn.
  - lia.
  - destruct (is_pending x); cbn [List.length].
    + destruct k as [|k]; [discriminate|]. intros L.
      specialize (IH k ltac:(lia)).
      destruct (pick_pending k ts) as [[[b y] a]|]; [discriminate | congruence].
    + intros L. specialize (IH k L).
      destruct (pick_pending k ts) as [[[b y] a]|]; [discriminate | congruence].
Qed.

Lemma nothing_pending ts : pending_count ts = O -> work ts = O.
Proof.
  unfold pending_count, work. induction ts as [|x ts IH]; cbn; [reflexivity|].
  destruct x; cbn; try discriminate. exact IH.
Qed.

Lemma all_returned ts :
  work ts = O -> map Buf.id (fulfilled_values ts) = map task_id ts.
Proof.
  unfold work, fulfilled_values.
  induction ts as [|x ts IH]; cbn; [reflexivity|].
  destruct x; cbn; try discriminate. intros W. now rewrite IH.
Qed.

Lemma work_app a b : work (a ++ b) = (work a + work b)%nat.
Proof. unfold work. now rewrite map_app, list_sum_app. Qed.

Lemma work_cons t ts : work (t :: ts) = (awaits_left t + work ts)%nat.
Proof. reflexivity. Qed.

Lemma resume_task_returns cur t w h t' h' :
  is_pending t = true ->
  resume_task cur t w h = (inr t', h') ->
  task_id t' = task_id t /\ awaits_left t = S (awaits_left t')
  /\ exists block, h' = (h ++ block)%list /\ resumption block.
Proof.
  intros P R. destruct t as [b|b n|i]; cbn in *; [| |discriminate].
  - destruct (on_name w h (buf_id b)); inversion R; subst. cbn.
    repeat split. exists [Settled (GetName (buf_id b)); Sent (GetLoaded (buf_id b))].
    split; [now rewrite <- app_assoc | constructor].
  - destruct (on_loaded w h (buf_id b)); inversion R; subst. cbn.
    repeat split. exists [Settled (GetLoaded (buf_id b))].
    split; [reflexivity | constructor].
Qed.

(** With a turn for every await, [Promise.all] fulfils with one value per
    buffer, in the order of the buffers, and its turns are resumptions. *)
Lemma run_tasks_returns cur w turns :
  forall ts h ts' h',
    (work ts <= turns)%nat ->
    run_tasks turns cur ts w h = (inr ts', h') ->
    map task_id ts' = map task_id ts /\ work ts' = O
    /\ exists blocks, h' = (h ++ List.concat blocks)%list /\ Forall resumption blocks.
Proof.
  induction turns as [|turns IH]; intros ts h ts' h' W R; cbn in R.
  - inversion R; subst. repeat split; [lia|].
    exists []. split; [now rewrite app_nil_r | constructor].
  - destruct (pick_pending _ ts) as [[[before t] after]|] eqn:Q.
    + destruct (pick_pending_some _ _ _ _ _ Q) as [-> P].
      destruct (resume_task cur t w h) as [[e|t1] h1] eqn:T; [discriminate|].
      destruct (resume_task_returns _ _ _ _ _ _ P T)
        as (I & A & block & -> & B).
      rewrite work_app, work_cons in W.
      assert (W1 : (work (before ++ t1 :: after) <= turns)%nat)
        by (rewrite work_app, work_cons; lia).
      destruct (IH _ _ _ _ W1 R) as (M & Z0 & blocks & -> & F).
      split; [|split; [exact Z0|]].
      * rewrite M, !map_app. cbn. now rewrite I.
      * exists (block :: blocks). cbn. split; [now rewrite app_assoc|].
        now constructor.
    + injection R as <- <-. split; [reflexivity|].
      assert (Z0 : pending_count ts = O).
      { destruct (pending_count ts) as [|n] eqn:C; [reflexivity|].
        exfalso. apply (pick_pending_in_range
                          (settle_pick w h mod S n) ts); [|exact Q].
        rewrite C. apply Nat.mod_upper_bound. discriminate. }
      split; [now apply nothing_pending|].
      exists []. split; [now rewrite app_nil_r | constructor].
Qed.

Lemma work_initial allBuffers :
  work (map AwaitingName allBuffers) = (2 * List.length allBuffers)%nat.
Proof.
  induction allBuffers as [|b l IH]; [reflexivity|].
  cbn [map]. rewrite work_cons, IH. cbn [awaits_left List.length]. lia.
Qed.

Lemma promise_all_map_returns cur allBuffers w h infos h' :
  promise_all_map cur allBuffers w h = (inr infos, h') ->
  map Buf.id infos = map buf_id allBuffers
  /\ exists blocks,
       h' = (h ++ map (fun b => Sent (GetName (Buf.id b))) infos
               ++ List.concat blocks)%list
       /\ Forall resumption blocks.
Proof.
  unfold promise_all_map.
  destruct (run_tasks _ cur _ w _) as [[e|ts] h1] eqn:R; [discriminate|].
  intros E. injection E as <- <-.
  apply run_tasks_returns in R; [|now rewrite work_initial].
  destruct R as (M & Z0 & blocks & -> & F).
  assert (I : map Buf.id (fulfilled_values ts) = map buf_id allBuffers).
  { rewrite (all_returned _ Z0), M, map_map. reflexivity. }
  split; [exact I|]. exists blocks. split; [|exact F].
  rewrite <- app_assoc. f_equal. f_equal.
  rewrite <- (map_map Buf.id (fun i => Sent (GetName i))), I, map_map.
  reflexivity.
Qed.

Lemma snapshot_calls_log instance w h d h' :
  snapshot_calls instance w h = (inr d, h') ->
  exists cur bufs blocks,
    Details.buffers d = Some bufs
    /\ h' = (h ++ completed [CallGetcwd; GetBuffer; GetName cur; CallGetpos;
                             GetBuffers]
               ++ map (fun b => Sent (GetName (Buf.id b))) bufs
               ++ List.concat blocks)%list
    /\ Forall resumption blocks.
Proof.
  unfold snapshot_calls, bind, await, ret. intros R. split_calls.
  match goal with
  | H : promise_all_map _ _ _ _ = _ |- _ =>
      apply promise_all_map_returns in H;
      destruct H as (_ & blocks & -> & F)
  end.
  match goal with
  | H : on_buffer _ _ = inr ?b |- _ => exists (buf_id b)
  end.
  eexists. exists blocks. split; [reflexivity|]. split; [|exact F].
  cbn. now rewrite <- !app_assoc.
Qed.

Lemma in_flight_completed rs h :
  in_flight_ok 0 (completed rs ++ h)%list = in_flight_ok 0 h.
Proof. induction rs as [|r rs IH]; [reflexivity | exact IH]. Qed.

(** C9, as the specification words it, fails: on an editor with two
    buffers the snapshot succeeds and both [name] fetches are issued
    before either settles, so two calls are in flight together. *)
Lemma buffer_names_fetched_together :
  Details.error (fst (getNeovimInstanceDetails one_instance 1257 calm)) = None
  /\ snd (getNeovimInstanceDetails one_instance 1257 calm)
     = (completed [Attach "/tmp/nvim-1257.sock"; CallGetcwd; GetBuffer;
                   GetName 1; CallGetpos; GetBuffers]
        ++ [Sent (GetName 1); Sent (GetName 2);
            Settled (GetName 1); Sent (GetLoaded 1);
            Settled (GetLoaded 1);
            Settled (GetName 2); Sent (GetLoaded 2);
            Settled (GetLoaded 2)]
        ++ completed [Close])%list
  /\ one_at_a_time (snd (getNeovimInstanceDetails one_instance 1257 calm))
     = false.
Proof. split; [|split]; reflexivity. Qed.

(** * Further properties of the code *)

(** ** Discovery, entry by entry *)

Lemma scan_entry_appends fs dir sockets file :
  scan_entry fs dir sockets file = (sockets ++ scan_entry fs dir [] file)%list.
Proof.
  unfold scan_entry.
  destruct (JS.startsWith file "nvim-" && JS.endsWith file ".sock");
    [|now rewrite app_nil_r].
  destruct (statSync fs (join dir file)) as [e|stats]; [now rewrite app_nil_r|].
  destruct (isSocket stats); [|now rewrite app_nil_r].
  destruct (JS.match_nvim_sock file); [reflexivity | now rewrite app_nil_r].
Qed.

Lemma scan_entries fs dir files :
  forall sockets,
    fold_left (scan_entry fs dir) files sockets
    = (sockets ++ flat_map (scan_entry fs dir []) files)%list.
Proof.
  induction files as [|file files IH]; intros sockets; cbn.
  - now rewrite app_nil_r.
  - now rewrite IH, scan_entry_appends, app_assoc.
Qed.

Lemma findNeovimSockets_listing fs files :
  existsSync fs "/tmp" = true ->
  readdirSync fs "/tmp" = inr files ->
  findNeovimSockets fs = flat_map (entry_instances fs) files.
Proof.
  intros E D. unfold findNeovimSockets. rewrite E, D. cbn [negb].
  apply scan_entries.
Qed.

Lemma entry_instances_cases fs file :
  entry_instances fs file = []
  \/ exists digits,
       JS.startsWith file "nvim-" = true /\ JS.endsWith file ".sock" = true
       /\ statSync fs ("/tmp/" ++ file) = inr {| isSocket := true |}
       /\ JS.match_nvim_sock file = Some digits
       /\ entry_instances fs file
          = [ {| socket := "/tmp/" ++ file; pid := JS.parseInt digits |} ].
Proof.
  unfold entry_instances, scan_entry.
  destruct (JS.startsWith file "nvim-") eqn:S; [|now left].
  destruct (JS.endsWith file ".sock") eqn:E; [|now left]. cbn [andb].
  change (join "/tmp" file) with ("/tmp/" ++ file).
  destruct (statSync fs ("/tmp/" ++ file)) as [e|[[|]]] eqn:T; [now left| |now left].
  cbn [isSocket].
  destruct (JS.match_nvim_sock file) as [digits|] eqn:M; [|now left].
  right. now exists digits.
Qed.

(** X1.  When [/tmp] exists and can be listed, discovery is the listing
    taken entry by entry, in the order of the listing: every instance
    returned comes from an entry that starts with [nvim-], ends with
    [.sock] and was reported a socket by a successful [statSync]; its
    socket is the entry's path under [/tmp]; and no entry yields two. *)
Theorem discovery_follows_listing :
  forall fs files,
    existsSync fs "/tmp" = true ->
    readdirSync fs "/tmp" = inr files ->
    findNeovimSockets fs = flat_map (entry_instances fs) files
    /\ (forall i, In i (findNeovimSockets fs) ->
                  exists file,
                    In file files /\ socket i = "/tmp/" ++ file
                    /\ JS.startsWith file "nvim-" = true
                    /\ JS.endsWith file ".sock" = true
                    /\ statSync fs (socket i) = inr {| isSocket := true |})
    /\ (List.length (findNeovimSockets fs) <= List.length files)%nat.
Proof.
  intros fs files E D. rewrite (findNeovimSockets_listing _ _ E D).
  split; [reflexivity|]. split.
  - intros i I. apply in_flat_map in I. destruct I as (file & F & I).
    exists file. split; [exact F|].
    destruct (entry_instances_cases fs file) as [N|(digits & S & En & T & _ & N)];
      rewrite N in I; [destruct I|].
    destruct I as [<-|[]]. cbn [socket]. now repeat split.
  - clear E D. induction files as [|file files IH]; cbn; [lia|].
    rewrite List.length_app.
    destruct (entry_instances_cases fs file) as [N|(digits & _ & _ & _ & _ & N)];
      rewrite N; cbn; lia.
Qed.

Lemma discovery_follows_listing_witness :
  findNeovimSockets (tmp_with ["nvim-1257.sock"; "notes.txt"; "nvim-9.sock"])
  = flat_map (entry_instances (tmp_with ["nvim-1257.sock"; "notes.txt"; "nvim-9.sock"]))
             ["nvim-1257.sock"; "notes.txt"; "nvim-9.sock"].
Proof.
  exact (proj1 (discovery_follows_listing
                  (tmp_with ["nvim-1257.sock"; "notes.txt"; "nvim-9.sock"])
                  ["nvim-1257.sock"; "notes.txt"; "nvim-9.sock"]
                  eq_refl eq_refl)).
Defined.

(** X2.  An entry whose [statSync] throws, or that is not a socket, is
    passed over and the scan goes on: discovery is the same as on the
    listing without such entries. *)
Theorem discovery_skips_unusable_entries :
  forall fs files,
    existsSync fs "/tmp" = true ->
    readdirSync fs "/tmp" = inr files ->
    findNeovimSockets fs
    = flat_map (entry_instances fs)
        (filter (fun file =>
                   match statSync fs ("/tmp/" ++ file) with
                   | inr stats => isSocket stats
                   | inl _ => false
                   end) files).
Proof.
  intros fs files E D. rewrite (findNeovimSockets_listing _ _ E D).
  clear E D. induction files as [|file files IH]; [reflexivity|].
  cbn [flat_map filter]. rewrite IH.
  destruct (statSync fs ("/tmp/" ++ file)) as [e|[[|]]] eqn:T; [|reflexivity|].
  - destruct (entry_instances_cases fs file) as [->|(d & _ & _ & T' & _)];
      [reflexivity | congruence].
  - destruct (entry_instances_cases fs file) as [->|(d & _ & _ & T' & _)];
      [reflexivity | congruence].
Qed.

Lemma discovery_skips_unusable_entries_witness :
  findNeovimSockets mixed_tmp
  = flat_map (entry_instances mixed_tmp) ["nvim-1.sock"]
  /\ findNeovimSockets mixed_tmp = [ {| socket := "/tmp/nvim-1.sock"; pid := 1 |} ].
Proof.
  split;
    exact (discovery_skips_unusable_entries mixed_tmp
             ["nvim-1.sock"; "nvim-2.sock"; "nvim-3.sock"] eq_refl eq_refl).
Defined.

(** ** Locating an instance *)




(** ** The socket name of the README *)

Ltac digit_to_positive :=
  match goal with
  | |- context [JS.digit_value ?c] =>
      let v := eval vm_compute in (JS.digit_value c) in
      change (JS.digit_value c) with v
  end;
  match goal with
  | |- JS.parse_digits ?v _ = _ (Pos.of_uint_acc _ ?a) =>
      replace v with (Zpos a) by lia
  end.

Lemma parse_digits_pos d :
  forall acc, JS.parse_digits (Zpos acc) (NilEmpty.string_of_uint d)
              = Zpos (Pos.of_uint_acc d acc).
Proof.
  induction d; intros acc;
    cbn [NilEmpty.string_of_uint JS.parse_digits Pos.of_uint_acc];
    [reflexivity|..]; digit_to_positive; apply IHd.
Qed.

Lemma parse_digits_uint d :
  JS.parse_digits 0 (NilEmpty.string_of_uint d) = Z.of_N (Pos.of_uint d).
Proof.
  induction d; cbn [NilEmpty.string_of_uint JS.parse_digits Pos.of_uint];
    [reflexivity | exact IHd |..];
    cbn [Z.of_N]; digit_to_positive; apply parse_digits_pos.
Qed.

Lemma number_to_string_nonneg n :
  0 <= n ->
  exists d, JS.number_to_string n = NilEmpty.string_of_uint d
            /\ d <> Decimal.Nil /\ Z.of_N (Pos.of_uint d) = n.
Proof.
  intros N. unfold JS.number_to_string. destruct n as [|p|p]; [| |lia].
  - exists (Decimal.D0 Decimal.Nil). repeat split. discriminate.
  - exists (Pos.to_uint p). cbn.
    pose proof (DecimalPos.Unsigned.to_uint_nonnil p) as NN.
    split; [now destruct (Pos.to_uint p) | split; [exact NN|]].
    now rewrite DecimalPos.Unsigned.of_to.
Qed.

(** [parseInt] undoes the rendering of a non-negative integer that a
    double holds exactly. *)
Lemma parseInt_number_to_string n :
  0 <= n < 2 ^ 53 -> JS.parseInt (JS.number_to_string n) = n.
Proof.
  intros [N B]. destruct (number_to_string_nonneg n N) as (d & E & _ & V).
  unfold JS.parseInt. rewrite E, parse_digits_uint, V.
  unfold JS.to_double. apply Z.ltb_lt in B. now rewrite B.
Qed.

(** From 2^53 on the round trip is lost. *)
Lemma parseInt_rounds :
  JS.parseInt "9007199254740993" = 9007199254740992
  /\ JS.parseInt "9007199254740995" = 9007199254740996
  /\ JS.parseInt "9007199254740992" = 9007199254740992.
Proof. split; [|split]; reflexivity. Qed.

Lemma span_digits_uint d rest :
  JS.span_digits rest = (EmptyString, rest) ->
  JS.span_digits (NilEmpty.string_of_uint d ++ rest)
  = (NilEmpty.string_of_uint d, rest).
Proof.
  intros R. induction d; cbn [NilEmpty.string_of_uint append]; [exact R|..];
    cbn [JS.span_digits]; rewrite IHd; reflexivity.
Qed.

Lemma readme_name_is_instance_name n :
  0 <= n ->
  is_instance_name (readme_socket_name n) = true
  /\ digit_run (readme_socket_name n) = JS.number_to_string n.
Proof.
  intros N. destruct (number_to_string_nonneg n N) as (d & E & NN & _).
  unfold is_instance_name, digit_run, readme_socket_name. rewrite E.
  cbn [append String.prefix JS.substring_from].
  repeat match goal with
         | |- context [ascii_dec ?a ?b] =>
             destruct (ascii_dec a b); [|congruence]
         end.
  rewrite (span_digits_uint d ".sock" eq_refl). cbn [fst andb].
  split; [|reflexivity].
  destruct d; [congruence|..]; reflexivity.
Qed.

Lemma find_some_of {A} (f : A -> bool) (l : list A) x :
  In x l -> f x = true -> exists y, find f l = Some y /\ f y = true.
Proof.
  induction l as [|a l IH]; cbn; [intros []|].
  intros [<-|I] Fx.
  - rewrite Fx. now exists a.
  - destruct (f a) eqn:Fa; [now exists a | now apply IH].
Qed.

(** X4.  An editor that names its socket as the README prescribes,
    [/tmp/nvim-<pid>.sock] with its process id [n], a non-negative integer
    below 2^53 (what a double holds exactly), is discovered with pid [n]
    and that socket, and [getNeovimInstance n] finds an instance with pid
    [n]. *)
Theorem readme_socket_is_discovered :
  forall fs files n,
    0 <= n < 2 ^ 53 ->
    existsSync fs "/tmp" = true ->
    readdirSync fs "/tmp" = inr files ->
    In (readme_socket_name n) files ->
    statSync fs ("/tmp/" ++ readme_socket_name n) = inr {| isSocket := true |} ->
    In {| socket := "/tmp/" ++ readme_socket_name n; pid := n |}
       (findNeovimSockets fs)
    /\ exists i, getNeovimInstance fs n = Some i /\ pid i = n.
Proof.
  intros fs files n N E D I T.
  assert (J : In {| socket := "/tmp/" ++ readme_socket_name n; pid := n |}
                 (findNeovimSockets fs)).
  { rewrite (findNeovimSockets_listing _ _ E D). apply in_flat_map.
    exists (readme_socket_name n). split; [exact I|].
    destruct (readme_name_is_instance_name n (proj1 N)) as [A R].
    destruct (instance_name_accepted _ A) as [G M].
    unfold entry_instances, scan_entry. rewrite G, M, R.
    change (join "/tmp" (readme_socket_name n))
      with ("/tmp/" ++ readme_socket_name n).
    rewrite T. cbn [isSocket]. rewrite (parseInt_number_to_string n N).
    now left. }
  split; [exact J|].
  destruct (find_some_of (fun s => pid s =? n) _ _ J (Z.eqb_refl n))
    as (y & F & P).
  exists y. split; [exact F | now apply Z.eqb_eq].
Qed.

Lemma readme_socket_is_discovered_witness :
  In {| socket := "/tmp/nvim-1257.sock"; pid := 1257 |}
     (findNeovimSockets one_instance)
  /\ exists i, getNeovimInstance one_instance 1257 = Some i /\ pid i = 1257.
Proof.
  apply (readme_socket_is_discovered one_instance ["nvim-1257.sock"] 1257).
  - lia.
  - reflexivity.
  - reflexivity.
  - now left.
  - reflexivity.
Defined.

(** X5.  On a directory in which every entry that starts with [nvim-] and
    ends with [.sock] has a run of digits and nothing else in between,
    [findNeovimSockets] returns exactly the entries named
    [nvim-<digits>.sock] that a successful [statSync] reports as sockets,
    each with the digit run as its pid. *)
Theorem discovery_on_regular_names :
  forall fs,
    (forall files file,
        readdirSync fs "/tmp" = inr files -> In file files ->
        JS.startsWith file "nvim-" && JS.endsWith file ".sock" = true ->
        is_instance_name file = true) ->
    findNeovimSockets fs = discover fs.
Proof.
  intros fs Reg. unfold findNeovimSockets, discover.
  destruct (existsSync fs "/tmp"); cbn [negb]; [|reflexivity].
  destruct (readdirSync fs "/tmp") as [e|files] eqn:D; [reflexivity|].
  rewrite scan_regular; [reflexivity|].
  intros file I S. exact (Reg files file eq_refl I S).
Qed.

Lemma discovery_on_regular_names_witness :
  findNeovimSockets (tmp_with ["nvim-1257.sock"; "notes.txt"])
  = discover (tmp_with ["nvim-1257.sock"; "notes.txt"]).
Proof.
  apply discovery_on_regular_names.
  intros files file D I S. injection D as <-.
  destruct I as [<-|[<-|[]]]; [reflexivity | discriminate S].
Defined.

(** ** The snapshot that succeeds *)

Lemma placeholder_nonempty name label :
  JS.str_or name ("[Buffer " ++ label ++ "]") <> "".
Proof. unfold JS.str_or. destruct name; cbn; discriminate. Qed.

Lemma resume_task_well_formed cur t w h info h' :
  resume_task cur t w h = (inr (Fulfilled info), h') ->
  is_pending t = true ->
  well_formed_info (buf_id cur) info.
Proof.
  intros R P. destruct t as [b|b n|i]; cbn in *; [| |discriminate].
  - destruct (on_name w h (buf_id b)); discriminate.
  - destruct (on_loaded w h (buf_id b)); [discriminate|].
    injection R as <- _. split; [apply placeholder_nonempty | reflexivity].
Qed.

Lemma run_tasks_well_formed cur w turns :
  forall ts h ts' h',
    (forall info, In (Fulfilled info) ts -> well_formed_info (buf_id cur) info) ->
    run_tasks turns cur ts w h = (inr ts', h') ->
    forall info, In (Fulfilled info) ts' -> well_formed_info (buf_id cur) info.
Proof.
  induction turns as [|turns IH]; intros ts h ts' h' G R; cbn in R.
  - now injection R as <- <-.
  - destruct (pick_pending _ ts) as [[[before t] after]|] eqn:Q;
      [|now injection R as <- <-].
    destruct (pick_pending_some _ _ _ _ _ Q) as [-> P].
    destruct (resume_task cur t w h) as [[e|t1] h1] eqn:T; [discriminate|].
    apply (IH _ _ _ _ ) with (2 := R).
    intros info I. apply in_app_iff in I. destruct I as [I|[E|I]].
    + apply G, in_app_iff. now left.
    + rewrite E in T. exact (resume_task_well_formed _ _ _ _ _ _ T P).
    + apply G, in_app_iff. right. now right.
Qed.

Lemma fulfilled_values_in ts info :
  In info (fulfilled_values ts) -> In (Fulfilled info) ts.
Proof.
  unfold fulfilled_values. intros I. apply in_flat_map in I.
  destruct I as (t & T & I). destruct t; cbn in I; try contradiction.
  destruct I as [<-|[]]. exact T.
Qed.

Lemma promise_all_map_well_formed cur allBuffers w h infos h' :
  promise_all_map cur allBuffers w h = (inr infos, h') ->
  Forall (well_formed_info (buf_id cur)) infos.
Proof.
  unfold promise_all_map.
  destruct (run_tasks _ cur _ w _) as [[e|ts] h1] eqn:R; [discriminate|].
  intros E. injection E as <- <-. apply Forall_forall. intros info I.
  apply fulfilled_values_in in I.
  apply (run_tasks_well_formed _ _ _ _ _ _ _) with (2 := R) (3 := I).
  intros i J. apply in_map_iff in J. destruct J as (b & B & _). discriminate.
Qed.

Lemma snapshot_calls_buffers instance w h d h' :
  snapshot_calls instance w h = (inr d, h') ->
  exists cur bufs rest,
    Details.buffers d = Some bufs
    /\ h' = (h ++ completed [CallGetcwd; GetBuffer; GetName cur] ++ rest)%list
    /\ Forall (well_formed_info cur) bufs.
Proof.
  unfold snapshot_calls, bind, await, ret. intros R. split_calls.
  match goal with
  | H : promise_all_map ?c _ _ _ = _ |- _ =>
      pose proof (promise_all_map_well_formed _ _ _ _ _ _ H) as G;
      apply promise_all_map_returns in H;
      destruct H as (_ & blocks & -> & _);
      exists (buf_id c)
  end.
  eexists. eexists. split; [reflexivity|]. split; [|exact G].
  cbn. rewrite <- !app_assoc. cbn. reflexivity.
Qed.

(** X6.  A snapshot without [error] is fully populated: its instance is
    the one located for the pid, and [workingDirectory], [cursorPosition]
    and [buffers] are all present ([currentFile] alone may be missing,
    when the current buffer has no name).  Every buffer listed has a
    non-empty name (the placeholder stands in for an empty one) and is
    marked current exactly when its id is the id of the current buffer,
    the one whose name the third call of the session asked for. *)
Theorem successful_snapshot_is_complete :
  forall fs p w d h,
    getNeovimInstanceDetails fs p w = (d, h) ->
    Details.error d = None ->
    getNeovimInstance fs p = Some (Details.instance d)
    /\ Details.workingDirectory d <> None
    /\ Details.cursorPosition d <> None
    /\ exists cur bufs rest,
         Details.buffers d = Some bufs
         /\ h = (completed [Attach (socket (Details.instance d)); CallGetcwd;
                            GetBuffer; GetName cur] ++ rest)%list
         /\ Forall (well_formed_info cur) bufs.
Proof.
  intros fs p w d h R N.
  destruct (getNeovimInstance fs p) as [instance|] eqn:F.
  - rewrite (details_found _ _ _ F) in R.
    destruct (try_session_cases instance (snapshot_calls instance) (fun d => d)
                (fun error => error_details instance (connect_failure error)) w)
      as [(d' & h2 & _ & C & _ & X)|(e & h' & X)];
      rewrite X in R; injection R as <- <-; [|discriminate N].
    destruct (snapshot_calls_value _ _ _ _ _ C) as (I & _ & W & _ & P).
    destruct (snapshot_calls_buffers _ _ _ _ _ C) as (cur & bufs & rest & B & -> & G).
    rewrite I. repeat split; trivial.
    exists cur, bufs, (rest ++ completed [Close])%list.
    split; [exact B|]. split; [|exact G].
    rewrite <- !app_assoc. reflexivity.
  - rewrite (details_absent _ _ F) in R. injection R as <- <-. discriminate N.
Qed.

Lemma successful_snapshot_is_complete_witness :
  getNeovimInstance one_instance 1257
  = Some (Details.instance (fst (getNeovimInstanceDetails one_instance 1257 calm)))
  /\ Details.workingDirectory (fst (getNeovimInstanceDetails one_instance 1257 calm))
     <> None.
Proof.
  destruct (successful_snapshot_is_complete one_instance 1257 calm _ _
              eq_refl eq_refl) as (A & B & _).
  split; [exact A | exact B].
Defined.





(** ** Navigation, step by step *)

Ltac issued_prefix k :=
  eexists; eexists;
  split; [symmetry; apply (firstn_skipn k)|];
  split; [cbn; rewrite <- ?app_assoc; reflexivity|];
  cbn; first [ discriminate
             | split; [reflexivity|];
               repeat (rewrite string_app_assoc; cbn); reflexivity ].

Lemma navigate_calls_prefix filePath line column endLine endColumn w h x h' :
  navigate_calls filePath line column endLine endColumn w h = (x, h') ->
  exists rs rest,
    navigation_requests filePath line column endLine endColumn = (rs ++ rest)%list
    /\ h' = (h ++ completed rs)%list
    /\ match x with
       | inr m =>
           rest = []
           /\ m = navigation_message filePath line column endLine endColumn
       | inl _ => rs <> []
       end.
Proof.
  unfold navigate_calls, navigation_requests, navigation_message,
    bind, await, ret.
  intros R.
  destruct line, endLine;
    repeat match goal with
      | H : context [match ?o with _ => _ end] |- _ => destruct o eqn:?
      end;
    injection R as <- <-;
    first [ issued_prefix 1%nat | issued_prefix 2%nat | issued_prefix 3%nat
          | issued_prefix 4%nat | issued_prefix 5%nat ].
Qed.

(** X9.  A navigation that reports success returns the message "Opened
    <file>", extended by " at line L, column C" when [line] is given and
    by " (selected to line EL, column EC)" when [endLine] is given too,
    where C and EC are the columns used (1 and 999 by default); it echoes
    [file], [line] and [column] as they were passed, so an omitted column
    is echoed as absent although the cursor went to column 1. *)
Theorem successful_navigation_result :
  forall fs p filePath line column endLine endColumn w r h,
    openFileInNeovim fs p filePath line column endLine endColumn w = (r, h) ->
    Open.success r = true ->
    r = {| Open.success := true;
           Open.message :=
             navigation_message filePath line column endLine endColumn;
           Open.file := Some filePath;
           Open.line := line;
           Open.column := column;
           Open.error := None |}.
Proof.
  intros fs p filePath line column endLine endColumn w r h R S.
  destruct (getNeovimInstance fs p) as [instance|] eqn:F.
  - rewrite (open_found _ _ _ _ _ _ _ _ F) in R.
    destruct (try_session_cases instance
                (navigate_calls filePath line column endLine endColumn)
                (open_ok filePath line column)
                (fun error => open_failed filePath (connect_failure error)) w)
      as [(m & h2 & _ & C & _ & X)|(e & h' & X)];
      rewrite X in R; injection R as <- <-; [|discriminate S].
    destruct (navigate_calls_prefix _ _ _ _ _ _ _ _ _ C) as (_ & _ & _ & _ & _ & ->).
    reflexivity.
  - rewrite (open_absent _ _ _ _ _ _ _ F) in R. injection R as <- <-.
    discriminate S.
Qed.

Lemma successful_navigation_result_witness :
  fst (openFileInNeovim one_instance 1257 "f.txt" (Some 10) None (Some 20) None calm)
  = {| Open.success := true;
       Open.message :=
         "Opened f.txt at line 10, column 1 (selected to line 20, column 999)";
       Open.file := Some "f.txt";
       Open.line := Some 10;
       Open.column := None;
       Open.error := None |}.
Proof.
  exact (successful_navigation_result
           one_instance 1257 "f.txt" (Some 10) None (Some 20) None calm _ _
           eq_refl eq_refl).
Defined.

Lemma open_alike fs p filePath line line' column column' endLine endLine'
      endColumn endColumn' w :
  navigate_calls filePath line column endLine endColumn
  = navigate_calls filePath line' column' endLine' endColumn' ->
  snd (openFileInNeovim fs p filePath line column endLine endColumn w)
  = snd (openFileInNeovim fs p filePath line' column' endLine' endColumn' w)
  /\ Open.success (fst (openFileInNeovim fs p filePath line column endLine endColumn w))
     = Open.success (fst (openFileInNeovim fs p filePath line' column' endLine' endColumn' w))
  /\ Open.message (fst (openFileInNeovim fs p filePath line column endLine endColumn w))
     = Open.message (fst (openFileInNeovim fs p filePath line' column' endLine' endColumn' w))
  /\ Open.error (fst (openFileInNeovim fs p filePath line column endLine endColumn w))
     = Open.error (fst (openFileInNeovim fs p filePath line' column' endLine' endColumn' w)).
Proof.
  intros N.
  destruct (getNeovimInstance fs p) as [instance|] eqn:F.
  - rewrite !(open_found _ _ _ _ _ _ _ _ F), N.
    destruct (session_same_calls instance
                (navigate_calls filePath line' column' endLine' endColumn')
                (open_ok filePath line column) (open_ok filePath line' column') w)
      as [(e & h & X & Y)|(m & h & X & Y)].
    + rewrite (try_return_thrown _ _ _ _ _ X), (try_return_thrown _ _ _ _ _ Y).
      now repeat split.
    + rewrite (try_return_ok _ _ _ _ _ X), (try_return_ok _ _ _ _ _ Y).
      now repeat split.
  - rewrite !(open_absent _ _ _ _ _ _ _ F). now repeat split.
Qed.

(** X10.  Without [line], the arguments [column], [endLine] and
    [endColumn] have no effect on what a navigation does: the calls made,
    the success flag, the message and the error are those of a navigation
    given the file alone; in particular an [endLine] without [line] never
    starts a selection. *)
Theorem navigation_without_line_ignores_the_rest :
  forall fs p filePath column endLine endColumn w,
    snd (openFileInNeovim fs p filePath None column endLine endColumn w)
    = snd (openFileInNeovim fs p filePath None None None None w)
    /\ Open.success (fst (openFileInNeovim fs p filePath None column endLine endColumn w))
       = Open.success (fst (openFileInNeovim fs p filePath None None None None w))
    /\ Open.message (fst (openFileInNeovim fs p filePath None column endLine endColumn w))
       = Open.message (fst (openFileInNeovim fs p filePath None None None None w))
    /\ Open.error (fst (openFileInNeovim fs p filePath None column endLine endColumn w))
       = Open.error (fst (openFileInNeovim fs p filePath None None None None w))
    /\ ~ In (Sent (Input "v"))
            (snd (openFileInNeovim fs p filePath None column endLine endColumn w)).
Proof.
  intros fs p filePath column endLine endColumn w.
  destruct (open_alike fs p filePath None None column None endLine None
              endColumn None w eq_refl) as (A & B & C & D).
  repeat split; trivial.
  intros I.
  destruct (openFileInNeovim fs p filePath None column endLine endColumn w)
    as [r h] eqn:R.
  destruct (open_issues _ _ _ _ _ _ _ _ _ _ R _ I) as [(path & E)|[E|J]];
    try discriminate.
  cbn in J. destruct J as [J|[J|[]]]; discriminate.
Qed.

(** ** Execution, whatever the editor answers *)

Lemma command_output_any cmd w h :
  command_output cmd w h
  = (inr (kept_output (on_command w (asking h (Command cmd)) cmd)),
     (h ++ completed [Command cmd])%list).
Proof.
  unfold command_output, try_catch, bind. rewrite await_run.
  now destruct (on_command w (asking h (Command cmd)) cmd) as [e|[t|]].
Qed.

Lemma execute_calls_command command w h :
  execute_calls command false w h
  = (inr (kept_output (on_command w (asking h (Command (dispatched command)))
                                  (dispatched command)),
          command_message command
            (kept_output (on_command w (asking h (Command (dispatched command)))
                                     (dispatched command)))),
     (h ++ completed [Command (dispatched command)])%list).
Proof.
  unfold execute_calls, dispatched, command_message.
  assert (O : (if JS.startsWith command ":"
               then command_output (JS.substring_from 1 command)
               else command_output command) w h
              = command_output (if JS.startsWith command ":"
                                then JS.substring_from 1 command
                                else command) w h)
    by now destruct (JS.startsWith command ":").
  rewrite (bind_ok _ _ _ _ _ _ (eq_trans O (command_output_any _ w h))).
  destruct (kept_output _) as [|c text]; [reflexivity|].
  cbn [JS.truthy andb]. now destruct (JS.truthy _).
Qed.

(** X11.  In command mode, on a located instance, nothing that
    [nvim.command] does can make the function fail: whether the editor
    returns text, returns nothing or rejects the call (be it a refused
    command or a broken transport), once [attach] and [close] complete the
    function returns [success:true]; [output] is the text returned or the
    message of the rejection (absent when empty) and the message carries
    its trimmed form. *)
Theorem command_mode_fails_only_on_attach_or_close :
  forall fs p instance w command,
    getNeovimInstance fs p = Some instance ->
    attach_outcome w instance = inr tt ->
    on_close w (asking (completed [Attach (socket instance);
                                   Command (dispatched command)]) Close)
    = inr tt ->
    executeInNeovim fs p command false w
    = ({| Exec.success := true;
          Exec.message :=
            command_message command
              (kept_output
                 (on_command w (asking (connected instance)
                                       (Command (dispatched command)))
                             (dispatched command)));
          Exec.command := Some command;
          Exec.output :=
            JS.or_undefined
              (kept_output
                 (on_command w (asking (connected instance)
                                       (Command (dispatched command)))
                             (dispatched command)));
          Exec.error := None |},
       completed [Attach (socket instance); Command (dispatched command); Close]).
Proof.
  intros fs p instance w command F E K.
  rewrite (execute_found _ _ _ _ _ F).
  erewrite try_return_ok
    by (eapply session_completes;
        [exact E | apply execute_calls_command | exact K]).
  reflexivity.
Qed.

Lemma command_mode_fails_only_on_attach_or_close_witness :
  executeInNeovim one_instance 1257 ":w" false (rejecting NonError)
  = ({| Exec.success := true;
        Exec.message := "Executed command: :w → Command executed (may have failed)";
        Exec.command := Some ":w";
        Exec.output := Some "Command executed (may have failed)";
        Exec.error := None |},
     completed [Attach "/tmp/nvim-1257.sock"; Command "w"; Close]).
Proof.
  exact (command_mode_fails_only_on_attach_or_close
           one_instance 1257 nvim1257 (rejecting NonError) ":w"
           eq_refl eq_refl eq_refl).
Defined.

(** X12.  In command mode a leading colon is only notation: for a command
    [c] that does not itself start with a colon, [":" ++ c] and [c] send
    the same command to the editor, make the same calls, and return the
    same [success], [output] and [error] (the message and the [command]
    field echo the string as typed). *)
Theorem leading_colon_is_optional :
  forall fs p c w,
    JS.startsWith c ":" = false ->
    snd (executeInNeovim fs p (":" ++ c) false w)
    = snd (executeInNeovim fs p c false w)
    /\ Exec.success (fst (executeInNeovim fs p (":" ++ c) false w))
       = Exec.success (fst (executeInNeovim fs p c false w))
    /\ Exec.output (fst (executeInNeovim fs p (":" ++ c) false w))
       = Exec.output (fst (executeInNeovim fs p c false w))
    /\ Exec.error (fst (executeInNeovim fs p (":" ++ c) false w))
       = Exec.error (fst (executeInNeovim fs p c false w)).
Proof.
  intros fs p c w S.
  assert (D1 : dispatched (":" ++ c) = c).
  { unfold dispatched, JS.startsWith. cbn.
    destruct (ascii_dec ":" ":"); [now destruct c | congruence]. }
  assert (D2 : dispatched c = c) by (unfold dispatched; now rewrite S).
  destruct (getNeovimInstance fs p) as [instance|] eqn:F.
  - rewrite !(execute_found _ _ _ _ _ F).
    pose proof (execute_calls_command (":" ++ c) w (connected instance)) as C1.
    pose proof (execute_calls_command c w (connected instance)) as C2.
    rewrite D1 in C1. rewrite D2 in C2.
    destruct (attach_outcome w instance) as [e|[]] eqn:E.
    + rewrite !(try_return_thrown _ _ _ _ _ (session_attach_fails _ _ _ _ e E)).
      now repeat split.
    + destruct (on_close w (asking (connected instance
                                    ++ completed [Command c])%list Close))
        as [e|[]] eqn:K.
      * rewrite (try_return_thrown _ _ _ _ _
                   (session_close_fails _ _ _ _ _ _ e E C1 K)),
                (try_return_thrown _ _ _ _ _
                   (session_close_fails _ _ _ _ _ _ e E C2 K)).
        now repeat split.
      * rewrite (try_return_ok _ _ _ _ _ (session_completes _ _ _ _ _ _ E C1 K)),
                (try_return_ok _ _ _ _ _ (session_completes _ _ _ _ _ _ E C2 K)).
        now repeat split.
  - rewrite !(execute_absent _ _ _ _ F). now repeat split.
Qed.

Lemma leading_colon_is_optional_witness :
  snd (executeInNeovim one_instance 1257 ":set number" false calm)
  = snd (executeInNeovim one_instance 1257 "set number" false calm).
Proof.
  exact (proj1 (leading_colon_is_optional one_instance 1257 "set number" calm
                  eq_refl)).
Defined.

(** X13.  Key-sequence mode has no such tolerance: on a located instance
    with an established connection, a rejected [nvim.input] makes the
    function return [success:false] with the connect-failure text around
    the message of the rejection; nothing but the input was sent, and
    [close] follows once, whether or not it throws. *)
Theorem rejected_key_sequence_fails :
  forall fs p instance w command e,
    getNeovimInstance fs p = Some instance ->
    attach_outcome w instance = inr tt ->
    on_input w (asking (connected instance) (Input command)) command = inl e ->
    executeInNeovim fs p command true w
    = ({| Exec.success := false;
          Exec.message := "Failed to execute command in Neovim";
          Exec.command := Some command;
          Exec.output := None;
          Exec.error :=
            Some ("Failed to connect to Neovim instance: "
                    ++ message_or e "Unknown error") |},
       completed [Attach (socket instance); Input command; Close]).
Proof.
  intros fs p instance w command e F E I.
  assert (C : execute_calls command true w (connected instance)
              = (inl e, completed [Attach (socket instance); Input command])).
  { unfold execute_calls, bind. rewrite await_run, I. reflexivity. }
  rewrite (execute_found _ _ _ _ _ F).
  erewrite try_return_thrown
    by (eapply session_calls_fail; [exact E | exact C]).
  reflexivity.
Qed.

Lemma rejected_key_sequence_fails_witness :
  executeInNeovim one_instance 1257 "gg=G" true (rejecting (ErrorObj "boom"))
  = ({| Exec.success := false;
        Exec.message := "Failed to execute command in Neovim";
        Exec.command := Some "gg=G";
        Exec.output := None;
        Exec.error := Some "Failed to connect to Neovim instance: boom" |},
     completed [Attach "/tmp/nvim-1257.sock"; Input "gg=G"; Close]).
Proof.
  exact (rejected_key_sequence_fails
           one_instance 1257 nvim1257 (rejecting (ErrorObj "boom")) "gg=G"
           (ErrorObj "boom") eq_refl eq_refl eq_refl).
Defined.

(** ** Presentation *)

Lemma mentions_refl s : Mentions s s.
Proof. exists "", "". cbn. now rewrite string_app_nil. Qed.

Lemma mentions_after (a s x : string) : Mentions s x -> Mentions (a ++ s) x.
Proof.
  intros (b & c & ->). exists (a ++ b), c. now rewrite string_app_assoc.
Qed.

Lemma mentions_before (s a x : string) : Mentions s x -> Mentions (s ++ a) x.
Proof.
  intros (b & c & ->). exists b, (c ++ a). now rewrite !string_app_assoc.
Qed.

Lemma mentions_concat sep (l : list string) x :
  In x l -> Mentions (String.concat sep l) x.
Proof.
  induction l as [|a l IH]; [intros []|].
  intros [<-|I].
  - destruct l; cbn; [apply mentions_refl | apply mentions_before, mentions_refl].
  - destruct l as [|b l]; [destruct I|].
    change (String.concat sep (a :: b :: l))
      with (a ++ sep ++ String.concat sep (b :: l)).
    now apply mentions_after, mentions_after, IH.
Qed.

(** X14.  [formatNeovimInstances] answers "No Neovim instances found" for
    the empty list and for no other; for a non-empty list its text holds,
    for every instance, the line "PID <pid>: <socket>". *)
Theorem instances_text_names_every_instance :
  forall instances,
    (formatNeovimInstances instances = "No Neovim instances found"
     <-> instances = [])
    /\ (forall i, In i instances ->
                  Mentions (formatNeovimInstances instances)
                           ("PID " ++ JS.number_to_string (pid i) ++ ": "
                                   ++ socket i)).
Proof.
  intros instances. split.
  - destruct instances as [|i l]; [now split|].
    split; [|discriminate]. unfold formatNeovimInstances. cbn. discriminate.
  - intros i I. unfold formatNeovimInstances.
    destruct instances as [|a l]; [destruct I|].
    cbn [List.length Nat.eqb].
    do 4 apply mentions_after.
    apply mentions_concat.
    apply (in_map (fun i => "PID " ++ JS.number_to_string (pid i) ++ ": "
                                  ++ socket i)) in I.
    exact I.
Qed.

Lemma instances_text_names_every_instance_witness :
  Mentions (formatNeovimInstances (findNeovimSockets one_instance))
           "PID 1257: /tmp/nvim-1257.sock".
Proof.
  apply (proj2 (instances_text_names_every_instance
                  (findNeovimSockets one_instance)) nvim1257).
  now left.
Defined.

(** X15.  The list tool never fails on the directory: when [/tmp] is
    missing, or cannot be read, its text is "No Neovim instances found",
    the text of an empty discovery. *)
Theorem list_tool_on_unusable_directory :
  forall fs,
    existsSync fs "/tmp" = false \/ (exists e, readdirSync fs "/tmp" = inl e) ->
    findNeovimSockets fs = []
    /\ tool_list_neovim_instances fs = "No Neovim instances found".
Proof.
  intros fs U.
  assert (N : findNeovimSockets fs = []).
  { destruct U as [E|(e & D)].
    - now apply findNeovimSockets_missing_directory.
    - now apply (findNeovimSockets_unreadable_directory fs e). }
  split; [exact N|]. unfold tool_list_neovim_instances. now rewrite N.
Qed.

Lemma list_tool_on_unusable_directory_witness :
  tool_list_neovim_instances
    {| existsSync := fun _ => true;
       readdirSync := fun _ => inl (ErrorObj "EACCES");
       statSync := fun _ => inl (ErrorObj "ENOENT") |}
  = "No Neovim instances found".
Proof.
  apply list_tool_on_unusable_directory.
  right. now exists (ErrorObj "EACCES").
Defined.

(** X16.  Whenever a snapshot carries an error, be it for a pid that is
    not found or for a failed session, [formatNeovimInstanceDetails]
    renders the three lines "Neovim Instance <pid>", "Socket: <socket>"
    and "Error: <error>" and nothing else, and that is the text of the
    get-instance tool: no error produced by the code is empty, so none is
    mistaken for a success. *)
Theorem erroneous_snapshot_text :
  forall fs p w cwd e,
    Details.error (fst (getNeovimInstanceDetails fs p w)) = Some e ->
    formatNeovimInstanceDetails cwd (fst (getNeovimInstanceDetails fs p w))
    = "Neovim Instance "
        ++ JS.number_to_string
             (pid (Details.instance (fst (getNeovimInstanceDetails fs p w))))
        ++ LF ++ "Socket: "
        ++ socket (Details.instance (fst (getNeovimInstanceDetails fs p w)))
        ++ LF ++ "Error: " ++ e
    /\ fst (tool_get_neovim_instance fs cwd p w)
       = formatNeovimInstanceDetails cwd (fst (getNeovimInstanceDetails fs p w)).
Proof.
  intros fs p w cwd e E. split.
  - destruct (getNeovimInstance fs p) as [instance|] eqn:F.
    + rewrite (details_found _ _ _ F) in *.
      destruct (try_session_cases instance (snapshot_calls instance) (fun d => d)
                  (fun error => error_details instance (connect_failure error)) w)
        as [(d & h2 & _ & C & _ & X)|(e0 & h' & X)]; rewrite X in *; cbn [fst] in *.
      * destruct (snapshot_calls_value _ _ _ _ _ C) as (_ & N & _). congruence.
      * cbn in E. injection E as <-. reflexivity.
    + rewrite (details_absent _ _ F) in *. cbn in E. injection E as <-.
      reflexivity.
  - unfold tool_get_neovim_instance.
    now destruct (getNeovimInstanceDetails fs p w).
Qed.

Lemma erroneous_snapshot_text_witness :
  formatNeovimInstanceDetails "/home/u"
    (fst (getNeovimInstanceDetails one_instance 12 calm))
  = "Neovim Instance 12" ++ LF ++ "Socket: " ++ LF
      ++ "Error: Neovim instance with PID 12 not found".
Proof.
  exact (proj1 (erroneous_snapshot_text one_instance 12 calm "/home/u"
                  "Neovim instance with PID 12 not found" eq_refl)).
Defined.

Lemma fold_buffer_lines cwd (buffers : list Buf.t) :
  forall output,
    fold_left (fun output buffer => output ++ buffer_line cwd buffer)
              buffers output
    = output ++ String.concat "" (map (buffer_line cwd) buffers).
Proof.
  induction buffers as [|b l IH]; intros output; cbn [fold_left map].
  - cbn. now rewrite string_app_nil.
  - rewrite IH, string_app_assoc. f_equal.
    destruct l; cbn; [now rewrite string_app_nil | reflexivity].
Qed.

(** X17.  For a snapshot without error that has buffers, the text of
    [formatNeovimInstanceDetails] ends with one line per buffer, in the
    order of the snapshot, after a heading that gives their number. *)
Theorem snapshot_text_lists_buffers :
  forall cwd d buffers,
    truthy_opt (Details.error d) = false ->
    Details.buffers d = Some buffers ->
    buffers <> [] ->
    exists head,
      formatNeovimInstanceDetails cwd d
      = head ++ (LF ++ "=== Open Buffers ("
                    ++ JS.number_to_string (Z.of_nat (List.length buffers))
                    ++ ") ===" ++ LF)
             ++ String.concat "" (map (buffer_line cwd) buffers).
Proof.
  intros cwd d buffers E B N. unfold formatNeovimInstanceDetails.
  rewrite E, B.
  destruct buffers as [|b l]; [congruence|].
  cbn [List.length Nat.ltb Nat.leb].
  rewrite fold_buffer_lines. eexists. apply string_app_assoc.
Qed.

Lemma snapshot_text_lists_buffers_witness :
  exists head,
    formatNeovimInstanceDetails "/home/u"
      (fst (getNeovimInstanceDetails one_instance 1257 calm))
    = head ++ (LF ++ "=== Open Buffers (2) ===" ++ LF)
           ++ ("  1: ./a.txt [CURRENT]" ++ LF)
           ++ ("  2: [Buffer 2] (not loaded)" ++ LF).
Proof.
  destruct (snapshot_text_lists_buffers "/home/u"
              (fst (getNeovimInstanceDetails one_instance 1257 calm)) _
              eq_refl eq_refl) as (head & E); [discriminate|].
  exists head. exact E.
Defined.

Lemma replace_first_prefix pat rep rest :
  replace_first pat rep (pat ++ rest) = rep ++ rest.
Proof.
  assert (S : JS.substring_from (String.length pat) (pat ++ rest) = rest).
  { induction pat as [|c pat IH]; [reflexivity | exact IH]. }
  assert (P : String.prefix pat (pat ++ rest) = true).
  { clear S. induction pat as [|c pat IH]; cbn; [now destruct rest|].
    destruct (ascii_dec c c); [exact IH | congruence]. }
  destruct (pat ++ rest) eqn:A; cbn [replace_first]; now rewrite P, S.
Qed.

(** X18.  A buffer whose name lies under the working directory of the
    server is listed relative to it: the directory at the head of the name
    is replaced by a dot; the line starts with the id right-aligned in
    three columns and ends with the load state and the current marker. *)
Theorem buffer_under_cwd_shown_relative :
  forall cwd rest b,
    Buf.name b = cwd ++ rest ->
    buffer_line cwd b
    = padStart 3 (JS.number_to_string (Buf.id b)) ++ ": " ++ "." ++ rest
        ++ (if Buf.loaded b then "" else " (not loaded)")
        ++ (if Buf.current b then " [CURRENT]" else "") ++ LF.
Proof.
  intros cwd rest b N. unfold buffer_line.
  rewrite N, replace_first_prefix. reflexivity.
Qed.

Lemma buffer_under_cwd_shown_relative_witness :
  buffer_line "/home/u"
    {| Buf.id := 1; Buf.name := "/home/u/src/a.txt"; Buf.loaded := true;
       Buf.current := true |}
  = "  1: ./src/a.txt [CURRENT]" ++ LF.
Proof.
  exact (buffer_under_cwd_shown_relative "/home/u" "/src/a.txt"
           {| Buf.id := 1; Buf.name := "/home/u/src/a.txt"; Buf.loaded := true;
              Buf.current := true |} eq_refl).
Defined.

(** ** The tools *)

(** X19.  The open-file and execute tools answer with the message of a
    successful operation, and otherwise with "Error: " followed by the
    operation's [error]: every failure of the two functions carries a
    non-empty error, so the fallback to the message is never taken.  The
    calls made are those of the function called. *)
Theorem tool_text_is_message_or_error :
  forall fs p filePath line column endLine endColumn command isKeySequence w,
    tool_neovim_open_file fs p filePath line column endLine endColumn w
    = (match Open.error
               (fst (openFileInNeovim fs p filePath line column endLine endColumn w))
       with
       | Some e => "Error: " ++ e
       | None =>
           Open.message
             (fst (openFileInNeovim fs p filePath line column endLine endColumn w))
       end,
       snd (openFileInNeovim fs p filePath line column endLine endColumn w))
    /\ tool_neovim_execute fs p command (Some isKeySequence) w
       = (match Exec.error (fst (executeInNeovim fs p command isKeySequence w))
          with
          | Some e => "Error: " ++ e
          | None => Exec.message (fst (executeInNeovim fs p command isKeySequence w))
          end,
          snd (executeInNeovim fs p command isKeySequence w))
    /\ tool_neovim_execute fs p command None w
       = tool_neovim_execute fs p command (Some false) w.
Proof.
  intros fs p filePath line column endLine endColumn command isKeySequence w.
  unfold tool_neovim_open_file, tool_neovim_execute.
  destruct (getNeovimInstance fs p) as [instance|] eqn:F.
  - rewrite (open_found _ _ _ _ _ _ _ _ F), !(execute_found _ _ _ _ _ F).
    split; [|split; [|reflexivity]].
    + destruct (try_session_cases instance
                  (navigate_calls filePath line column endLine endColumn)
                  (open_ok filePath line column)
                  (fun error => open_failed filePath (connect_failure error)) w)
        as [(m & h2 & _ & _ & _ & ->)|(e & h' & ->)]; reflexivity.
    + destruct (try_session_cases instance
                  (execute_calls command isKeySequence) (exec_ok command)
                  (fun error => exec_failed command (connect_failure error)) w)
        as [(out & h2 & _ & _ & _ & ->)|(e & h' & ->)]; reflexivity.
  - rewrite (open_absent _ _ _ _ _ _ _ F), !(execute_absent _ _ _ _ F).
    split; [|split]; reflexivity.
Qed.

(** * Rejected calls and what they lead to *)

(** ** The rejections of a log *)

Lemma rejections_from_app w a :
  forall before b,
    rejections_from w before (a ++ b)%list
    = (rejections_from w before a ++ rejections_from w (before ++ a)%list b)%list.
Proof.
  induction a as [|[r|r] a IH]; intros before b; cbn.
  - now rewrite app_nil_r.
  - now rewrite IH, <- app_assoc.
  - destruct (rejection w before r); rewrite IH, <- app_assoc; reflexivity.
Qed.

Lemma rejections_from_sent w (rs : list request) :
  forall before, rejections_from w before (map Sent rs) = [].
Proof. induction rs as [|r rs IH]; intros before; cbn; [reflexivity | apply IH]. Qed.

Lemma rejections_from_call w before r :
  rejections_from w before (completed [r])
  = match rejection w (asking before r) r with
    | Some e => [(r, e)]
    | None => []
    end.
Proof. cbn. unfold asking. now destruct (rejection w _ r). Qed.

Lemma completed_snoc rs r :
  completed (rs ++ [r]) = ((completed rs ++ [Sent r]) ++ [Settled r])%list.
Proof. rewrite completed_app. cbn. now rewrite <- app_assoc. Qed.

Lemma completed_ends_settled rs before r :
  completed rs = (before ++ [Settled r])%list ->
  exists rs', rs = (rs' ++ [r])%list /\ before = (completed rs' ++ [Sent r])%list.
Proof.
  induction rs as [|q rs' _] using rev_ind.
  - cbn. destruct before; discriminate.
  - intros E. rewrite completed_snoc in E. apply app_inj_tail in E.
    destruct E as [<- E]. injection E as <-. now exists rs'.
Qed.

(** ** Computations that hide nothing *)

Lemma faithful_ret {A} (a : A) : faithful (ret a).
Proof.
  intros w h x h' E. injection E as <- <-. exists []. now rewrite app_nil_r.
Qed.

Lemma faithful_await {A} r (answer : remote -> log -> thrown + A) :
  (forall w h, rejected (answer w h) = rejection w h r) ->
  faithful (await r answer).
Proof.
  intros R w h x h' E. unfold await in E. injection E as <- <-.
  exists [Sent r; Settled r]. split; [reflexivity|].
  specialize (R w (h ++ [Sent r])%list).
  destruct (answer w (h ++ [Sent r])%list) as [e|a]; cbn in R.
  - exists [Sent r], r. now repeat split.
  - cbn. now rewrite <- R.
Qed.

Lemma faithful_bind {A B} (c : M A) (k : A -> M B) :
  faithful c -> (forall a, faithful (k a)) -> faithful (bind c k).
Proof.
  intros C K w h x h' E. unfold bind in E.
  destruct (c w h) as [[e|a] h1] eqn:Ec.
  - injection E as <- <-. exact (C _ _ _ _ Ec).
  - destruct (C _ _ _ _ Ec) as (add1 & -> & R1).
    destruct (K a _ _ _ _ E) as (add2 & -> & R2).
    exists (add1 ++ add2)%list. split; [now rewrite app_assoc|].
    destruct x as [e|b].
    + destruct R2 as (before & r & -> & R2 & J).
      exists (add1 ++ before)%list, r. split; [now rewrite app_assoc|].
      split; [now rewrite rejections_from_app, R1, R2|].
      now rewrite app_assoc.
    + now rewrite rejections_from_app, R1, R2.
Qed.

Lemma resume_task_faithful cur t : faithful (resume_task cur t).
Proof.
  intros w h x h' E. destruct t as [b|b n|i]; cbn in E.
  - destruct (on_name w h (buf_id b)) as [e|nm] eqn:N; injection E as <- <-.
    + exists [Settled (GetName (buf_id b))]. split; [reflexivity|].
      exists [], (GetName (buf_id b)). repeat split.
      cbn. now rewrite app_nil_r, N.
    + exists [Settled (GetName (buf_id b)); Sent (GetLoaded (buf_id b))].
      split; [now rewrite <- app_assoc|]. cbn. now rewrite N.
  - destruct (on_loaded w h (buf_id b)) as [e|l] eqn:L; injection E as <- <-.
    + exists [Settled (GetLoaded (buf_id b))]. split; [reflexivity|].
      exists [], (GetLoaded (buf_id b)). repeat split.
      cbn. now rewrite app_nil_r, L.
    + exists [Settled (GetLoaded (buf_id b))]. split; [reflexivity|].
      cbn. now rewrite L.
  - injection E as <- <-. exists []. now rewrite app_nil_r.
Qed.

Lemma run_tasks_faithful cur turns : forall ts, faithful (run_tasks turns cur ts).
Proof.
  induction turns as [|turns IH]; intros ts.
  - apply (faithful_ret ts).
  - intros w h x h' E. cbn in E.
    destruct (pick_pending _ ts) as [[[before t] after]|].
    + apply (faithful_bind (resume_task cur t)
               (fun t' => run_tasks turns cur (before ++ t' :: after)%list)
               (resume_task_faithful cur t) (fun t' => IH _) w h x h').
      unfold bind. destruct (resume_task cur t w h) as [[e|t'] h1]; exact E.
    + exact (faithful_ret ts w h x h' E).
Qed.

Lemma promise_all_map_faithful cur allBuffers :
  faithful (promise_all_map cur allBuffers).
Proof.
  intros w h x h' E. unfold promise_all_map in E.
  destruct (run_tasks _ cur _ w _) as [y h1] eqn:R.
  destruct (run_tasks_faithful _ _ _ _ _ _ _ R) as (added & -> & J).
  exists (map (fun b => Sent (GetName (buf_id b))) allBuffers ++ added)%list.
  assert (S : forall before,
             rejections_from w before
               (map (fun b => Sent (GetName (buf_id b))) allBuffers) = []).
  { intros before.
    rewrite <- (map_map buf_id (fun i => Sent (GetName i))),
            <- (map_map GetName Sent).
    apply rejections_from_sent. }
  destruct y as [e|ts]; injection E as <- <-;
    (split; [now rewrite app_assoc|]).
  - destruct J as (before & r & -> & J & K).
    exists (map (fun b => Sent (GetName (buf_id b))) allBuffers ++ before)%list, r.
    split; [now rewrite app_assoc|].
    split; [now rewrite rejections_from_app, S, J | now rewrite app_assoc].
  - now rewrite rejections_from_app, S, J.
Qed.

Ltac faithful_steps :=
  repeat match goal with
    | |- faithful (ret _) => apply faithful_ret
    | |- faithful (await _ _) => apply faithful_await; reflexivity
    | |- faithful (bind _ _) => apply faithful_bind; [|intros ?]
    | |- faithful (promise_all_map _ _) => apply promise_all_map_faithful
    | |- faithful (let _ := _ in _) => cbv zeta
    end.

Lemma snapshot_calls_faithful instance : faithful (snapshot_calls instance).
Proof. unfold snapshot_calls. faithful_steps. Qed.

Lemma navigate_calls_faithful filePath line column endLine endColumn :
  faithful (navigate_calls filePath line column endLine endColumn).
Proof.
  unfold navigate_calls. destruct line, endLine; faithful_steps.
Qed.

Lemma key_sequence_faithful command : faithful (execute_calls command true).
Proof. unfold execute_calls. faithful_steps. Qed.

(** ** A session reports the first rejection *)

Lemma rejections_from_settled w h before r :
  rejections_from w h (before ++ [Settled r])%list
  = (rejections_from w h before
     ++ match rejection w (h ++ before)%list r with
        | Some e => [(r, e)]
        | None => []
        end)%list.
Proof.
  rewrite rejections_from_app. cbn. now destruct (rejection w _ r).
Qed.

Lemma rejections_connected w instance :
  rejections w (connected instance)
  = match attach_outcome w instance with
    | inl e => [(Attach (socket instance), e)]
    | inr _ => []
    end.
Proof.
  unfold rejections, connected, attach_outcome, asking. cbn.
  now destruct (on_attach w _ _).
Qed.

Lemma rejections_close w h2 :
  rejections_from w h2 (completed [Close])
  = match on_close w (asking h2 Close) with
    | inl e => [(Close, e)]
    | inr _ => []
    end.
Proof. cbn. unfold asking. now destruct (on_close w _). Qed.

Lemma session_by_rejections {A B} instance (calls : M A) (result : A -> B)
      handler w x h :
  faithful calls ->
  try_return (session instance calls result) handler w = (x, h) ->
  match rejections w h with
  | [] =>
      exists a h2,
        attach_outcome w instance = inr tt
        /\ calls w (connected instance) = (inr a, h2)
        /\ on_close w (asking h2 Close) = inr tt
        /\ x = result a /\ h = (h2 ++ completed [Close])%list
  | (r, e) :: _ => x = handler e
  end.
Proof.
  intros Fc R. unfold try_return in R.
  destruct (session instance calls result w []) as [[e|b] h'] eqn:X;
    injection R as <- <-.
  - destruct (session_throws _ _ _ _ _ _ X)
      as [(At & ->)|[(At & h2 & C & ->)|(At & a & h2 & C & K & ->)]].
    + now rewrite rejections_connected, At.
    + destruct (Fc _ _ _ _ C) as (added & -> & before & r & -> & J & Kr).
      unfold rejections. rewrite !rejections_from_app.
      fold (rejections w (connected instance)).
      rewrite rejections_connected, At. cbn [app].
      rewrite J. cbn [rejections_from app]. rewrite Kr. reflexivity.
    + destruct (Fc _ _ _ _ C) as (added & -> & J).
      unfold rejections. rewrite !rejections_from_app.
      fold (rejections w (connected instance)).
      rewrite rejections_connected, At. cbn [app]. rewrite J. cbn [app].
      change (completed [Close; Close])
        with (completed [Close] ++ completed [Close])%list.
      rewrite rejections_from_app, rejections_close, K. reflexivity.
  - destruct (session_returns _ _ _ _ _ _ X) as (a & h2 & At & C & K & -> & ->).
    destruct (Fc _ _ _ _ C) as (added & E2 & J). subst h2.
    unfold rejections. rewrite !rejections_from_app.
    fold (rejections w (connected instance)).
    rewrite rejections_connected, At. cbn [app]. rewrite J. cbn [app].
    rewrite rejections_close, K.
    exists a, (connected instance ++ added)%list. now repeat split.
Qed.

(** ** Which rejections are reported, and how *)

(** C1, as the code has it.  On a found instance, take the first call
    that the editor rejects, [close] apart.  For the snapshot, for
    navigation and for execution in key-sequence mode, whichever call that
    is -- [attach] itself, or any call made on the established connection
    -- the value returned is the same function of what was thrown: the
    failure value whose error is "Failed to connect to Neovim instance: "
    followed by the message of the thrown error (or "Unknown error").  A
    failure while connected is thus reported with the very text of a
    failure to connect.  In command mode a rejected [attach] is reported
    in that same way, while a rejected [nvim.command] is not reported at
    all: with [attach] and [close] completing, the function returns
    [success:true] without [error]. *)
Theorem connect_and_use_failures_reported_alike :
  forall fs p instance w,
    getNeovimInstance fs p = Some instance ->
    (forall r e later,
        r <> Close ->
        rejections w (snd (getNeovimInstanceDetails fs p w)) = (r, e) :: later ->
        fst (getNeovimInstanceDetails fs p w)
        = error_details instance (connect_failure e))
    /\ (forall filePath line column endLine endColumn r e later,
          r <> Close ->
          rejections w
            (snd (openFileInNeovim fs p filePath line column endLine endColumn w))
          = (r, e) :: later ->
          fst (openFileInNeovim fs p filePath line column endLine endColumn w)
          = open_failed filePath (connect_failure e))
    /\ (forall command r e later,
          r <> Close ->
          rejections w (snd (executeInNeovim fs p command true w))
          = (r, e) :: later ->
          fst (executeInNeovim fs p command true w)
          = exec_failed command (connect_failure e))
    /\ (forall command e,
          (attach_outcome w instance = inl e ->
           fst (executeInNeovim fs p command false w)
           = exec_failed command (connect_failure e))
          /\ (attach_outcome w instance = inr tt ->
              on_command w (asking (connected instance)
                                   (Command (dispatched command)))
                         (dispatched command) = inl e ->
              on_close w (asking (completed [Attach (socket instance);
                                             Command (dispatched command)])
                                 Close) = inr tt ->
              Exec.success (fst (executeInNeovim fs p command false w)) = true
              /\ Exec.error (fst (executeInNeovim fs p command false w)) = None)).
Proof.
  intros fs p instance w F. split; [|split; [|split]].
  - intros r e later _ J.
    destruct (getNeovimInstanceDetails fs p w) as [x h] eqn:R.
    rewrite (details_found _ _ _ F) in R.
    pose proof (session_by_rejections _ _ _ _ _ _ _
                  (snapshot_calls_faithful instance) R) as S.
    cbn [snd] in J. rewrite J in S. exact S.
  - intros filePath line column endLine endColumn r e later _ J.
    destruct (openFileInNeovim fs p filePath line column endLine endColumn w)
      as [x h] eqn:R.
    rewrite (open_found _ _ _ _ _ _ _ _ F) in R.
    pose proof (session_by_rejections _ _ _ _ _ _ _
                  (navigate_calls_faithful filePath line column endLine endColumn)
                  R) as S.
    cbn [snd] in J. rewrite J in S. exact S.
  - intros command r e later _ J.
    destruct (executeInNeovim fs p command true w) as [x h] eqn:R.
    rewrite (execute_found _ _ _ _ _ F) in R.
    pose proof (session_by_rejections _ _ _ _ _ _ _
                  (key_sequence_faithful command) R) as S.
    cbn [snd] in J. rewrite J in S. exact S.
  - intros command e. rewrite (execute_found _ _ _ _ _ F). split.
    + intros A.
      erewrite try_return_thrown by (apply session_attach_fails; exact A).
      reflexivity.
    + intros A _ K.
      erewrite try_return_ok
        by (eapply session_completes;
            [exact A | apply execute_calls_command | exact K]).
      now split.
Qed.

Lemma connect_and_use_failures_reported_alike_witness :
  fst (getNeovimInstanceDetails one_instance 1257 (refusing (ErrorObj "boom")))
  = error_details nvim1257 "Failed to connect to Neovim instance: boom"
  /\ fst (getNeovimInstanceDetails one_instance 1257
            (calm_except is_getpos (ErrorObj "boom")))
     = error_details nvim1257 "Failed to connect to Neovim instance: boom"
  /\ fst (openFileInNeovim one_instance 1257 "f.txt" (Some 10) None None None
            (calm_except is_checktime (ErrorObj "boom")))
     = open_failed "f.txt" "Failed to connect to Neovim instance: boom"
  /\ fst (executeInNeovim one_instance 1257 "gg" true (rejecting (ErrorObj "boom")))
     = exec_failed "gg" "Failed to connect to Neovim instance: boom"
  /\ fst (executeInNeovim one_instance 1257 ":w" false (refusing (ErrorObj "boom")))
     = exec_failed ":w" "Failed to connect to Neovim instance: boom"
  /\ Exec.success
       (fst (executeInNeovim one_instance 1257 ":w" false
               (calm_except is_command (ErrorObj "boom")))) = true.
Proof.
  split; [|split; [|split; [|split; [|split]]]].
  - apply (proj1 (connect_and_use_failures_reported_alike
                    one_instance 1257 nvim1257 (refusing (ErrorObj "boom")) eq_refl)
             (Attach "/tmp/nvim-1257.sock") (ErrorObj "boom") []);
      [discriminate | reflexivity].
  - apply (proj1 (connect_and_use_failures_reported_alike
                    one_instance 1257 nvim1257
                    (calm_except is_getpos (ErrorObj "boom")) eq_refl)
             CallGetpos (ErrorObj "boom") []);
      [discriminate | reflexivity].
  - apply (proj1 (proj2 (connect_and_use_failures_reported_alike
                           one_instance 1257 nvim1257
                           (calm_except is_checktime (ErrorObj "boom")) eq_refl))
             "f.txt" (Some 10) None None None
             (Command "checktime") (ErrorObj "boom") []);
      [discriminate | reflexivity].
  - apply (proj1 (proj2 (proj2 (connect_and_use_failures_reported_alike
                                  one_instance 1257 nvim1257
                                  (rejecting (ErrorObj "boom")) eq_refl)))
             "gg" (Input "gg") (ErrorObj "boom") []);
      [discriminate | reflexivity].
  - apply (proj1 (proj2 (proj2 (proj2 (connect_and_use_failures_reported_alike
                                         one_instance 1257 nvim1257
                                         (refusing (ErrorObj "boom")) eq_refl)))
                    ":w" (ErrorObj "boom"))).
    reflexivity.
  - apply (proj2 (proj2 (proj2 (proj2 (connect_and_use_failures_reported_alike
                                         one_instance 1257 nvim1257
                                         (calm_except is_command (ErrorObj "boom"))
                                         eq_refl)))
                    ":w" (ErrorObj "boom")));
      reflexivity.
Defined.

(** ** The snapshot is all or nothing *)

(** C3: for every pid, file system and editor, a snapshot whose [error] is
    set has none of [workingDirectory], [currentFile], [buffers] and
    [cursorPosition].  In particular, on a located instance, whenever the
    editor rejects a call made during the operation -- [attach], [getcwd],
    the current buffer, its name, [getpos], the buffer list, the name or
    the loaded flag of any listed buffer, [close] -- the snapshot returned
    is exactly the instance with the error built from the first rejection,
    whatever had been fetched before it; and when the editor rejects
    nothing the snapshot has no error and has its buffers. *)
Theorem snapshot_error_excludes_fields :
  forall fs p w,
    (Details.error (fst (getNeovimInstanceDetails fs p w)) <> None ->
     no_snapshot_fields (fst (getNeovimInstanceDetails fs p w)))
    /\ (forall instance r e later,
          getNeovimInstance fs p = Some instance ->
          rejections w (snd (getNeovimInstanceDetails fs p w)) = (r, e) :: later ->
          fst (getNeovimInstanceDetails fs p w)
          = error_details instance (connect_failure e))
    /\ (forall instance,
          getNeovimInstance fs p = Some instance ->
          rejections w (snd (getNeovimInstanceDetails fs p w)) = [] ->
          Details.error (fst (getNeovimInstanceDetails fs p w)) = None
          /\ Details.buffers (fst (getNeovimInstanceDetails fs p w)) <> None).
Proof.
  intros fs p w. split; [|split].
  - destruct (getNeovimInstance fs p) as [instance|] eqn:F.
    + rewrite (details_found _ _ _ F).
      destruct (try_session_cases instance (snapshot_calls instance) (fun d => d)
                  (fun error => error_details instance (connect_failure error)) w)
        as [(d & h2 & _ & C & _ & ->)|(e & h' & ->)]; cbn [fst].
      * destruct (snapshot_calls_value _ _ _ _ _ C) as (_ & N & _). congruence.
      * intros _. now repeat split.
    + rewrite (details_absent _ _ F). intros _. now repeat split.
  - intros instance r e later F J.
    destruct (getNeovimInstanceDetails fs p w) as [x h] eqn:R.
    rewrite (details_found _ _ _ F) in R.
    pose proof (session_by_rejections _ _ _ _ _ _ _
                  (snapshot_calls_faithful instance) R) as S.
    cbn [snd] in J. rewrite J in S. exact S.
  - intros instance F J.
    destruct (getNeovimInstanceDetails fs p w) as [x h] eqn:R.
    rewrite (details_found _ _ _ F) in R.
    pose proof (session_by_rejections _ _ _ _ _ _ _
                  (snapshot_calls_faithful instance) R) as S.
    cbn [snd] in J. rewrite J in S.
    destruct S as (d & h2 & _ & C & _ & -> & _). cbn [fst].
    destruct (snapshot_calls_value _ _ _ _ _ C) as (_ & N & _ & B & _).
    now split.
Qed.

Lemma snapshot_error_excludes_fields_witness :
  no_snapshot_fields
    (fst (getNeovimInstanceDetails one_instance 1257
            (calm_except is_getpos (ErrorObj "boom"))))
  /\ fst (getNeovimInstanceDetails one_instance 1257
            (calm_except is_getpos (ErrorObj "boom")))
     = error_details nvim1257 "Failed to connect to Neovim instance: boom"
  /\ fst (getNeovimInstanceDetails one_instance 1257
            (calm_except (is_loaded_of 2) (ErrorObj "gone")))
     = error_details nvim1257 "Failed to connect to Neovim instance: gone"
  /\ Details.error (fst (getNeovimInstanceDetails one_instance 1257 calm)) = None.
Proof.
  split; [|split; [|split]].
  - apply (proj1 (snapshot_error_excludes_fields
                    one_instance 1257 (calm_except is_getpos (ErrorObj "boom")))).
    discriminate.
  - apply (proj1 (proj2 (snapshot_error_excludes_fields
                           one_instance 1257
                           (calm_except is_getpos (ErrorObj "boom"))))
             nvim1257 CallGetpos (ErrorObj "boom") [] eq_refl).
    reflexivity.
  - apply (proj1 (proj2 (snapshot_error_excludes_fields
                           one_instance 1257
                           (calm_except (is_loaded_of 2) (ErrorObj "gone"))))
             nvim1257 (GetLoaded 2) (ErrorObj "gone") [] eq_refl).
    reflexivity.
  - apply (proj2 (proj2 (snapshot_error_excludes_fields one_instance 1257 calm))
             nvim1257 eq_refl).
    reflexivity.
Defined.

(** ** Every buffer callback runs to its end *)

Lemma no_work_no_turns ts :
  work ts = O -> Forall (fun q => q = []) (map turns_left ts).
Proof.
  unfold work. induction ts as [|x ts IH]; cbn; [constructor|].
  destruct x; cbn; try discriminate. intros W. constructor; auto.
Qed.

Lemma interleaved_permutation queues turns :
  interleaved queues turns -> Permutation turns (List.concat queues).
Proof.
  induction 1 as [queues F|before turn q after turns _ IH].
  - induction F as [|q l -> _ IH]; cbn; [constructor | exact IH].
  - rewrite concat_app in *. cbn [List.concat app] in *.
    now apply Permutation_cons_app.
Qed.

Lemma resume_task_turn cur t w h t1 h1 :
  is_pending t = true ->
  resume_task cur t w h = (inr t1, h1) ->
  exists block,
    h1 = (h ++ block)%list /\ resumption block
    /\ turns_left t = block :: turns_left t1
    /\ awaits_left t = S (awaits_left t1).
Proof.
  intros P R. destruct t as [b|b n|i]; cbn in *; [| |discriminate].
  - destruct (on_name w h (buf_id b)); inversion R; subst.
    exists [Settled (GetName (buf_id b)); Sent (GetLoaded (buf_id b))].
    repeat split; [now rewrite <- app_assoc | constructor].
  - destruct (on_loaded w h (buf_id b)); inversion R; subst.
    exists [Settled (GetLoaded (buf_id b))].
    repeat split. constructor.
Qed.

Lemma run_tasks_turns cur w turns :
  forall ts h ts' h',
    (work ts <= turns)%nat ->
    run_tasks turns cur ts w h = (inr ts', h') ->
    exists blocks,
      h' = (h ++ List.concat blocks)%list
      /\ Forall resumption blocks
      /\ interleaved (map turns_left ts) blocks.
Proof.
  induction turns as [|turns IH]; intros ts h ts' h' W R; cbn in R.
  - injection R as <- <-. exists []. cbn. rewrite app_nil_r.
    repeat split; [constructor|]. constructor. apply no_work_no_turns. lia.
  - destruct (pick_pending _ ts) as [[[before t] after]|] eqn:Q.
    + destruct (pick_pending_some _ _ _ _ _ Q) as [-> P].
      destruct (resume_task cur t w h) as [[e|t1] h1] eqn:T; [discriminate|].
      destruct (resume_task_turn _ _ _ _ _ _ P T) as (block & -> & B & L & A).
      rewrite work_app, work_cons in W.
      assert (W1 : (work (before ++ t1 :: after) <= turns)%nat)
        by (rewrite work_app, work_cons; lia).
      destruct (IH _ _ _ _ W1 R) as (blocks & -> & F & I).
      exists (block :: blocks). cbn [List.concat].
      split; [now rewrite app_assoc|]. split; [now constructor|].
      rewrite map_app in *. cbn [map] in *. rewrite L.
      now constructor.
    + injection R as <- <-. exists []. cbn. rewrite app_nil_r.
      repeat split; [constructor|]. constructor. apply no_work_no_turns.
      apply nothing_pending.
      destruct (pending_count ts) as [|n] eqn:C; [reflexivity|].
      exfalso. apply (pick_pending_in_range
                        (settle_pick w h mod S n) ts); [|exact Q].
      rewrite C. apply Nat.mod_upper_bound. discriminate.
Qed.

Lemma promise_all_map_turns cur allBuffers w h infos h' :
  promise_all_map cur allBuffers w h = (inr infos, h') ->
  exists blocks,
    h' = (h ++ map (fun b => Sent (GetName (buf_id b))) allBuffers
            ++ List.concat blocks)%list
    /\ Forall resumption blocks
    /\ interleaved (map (fun b => buffer_turns (buf_id b)) allBuffers) blocks.
Proof.
  unfold promise_all_map.
  destruct (run_tasks _ cur _ w _) as [[e|ts] h1] eqn:R; [discriminate|].
  intros E. injection E as <- <-.
  apply run_tasks_turns in R; [|now rewrite work_initial].
  destruct R as (blocks & -> & F & I).
  exists blocks. split; [now rewrite <- app_assoc|]. split; [exact F|].
  rewrite map_map in I. exact I.
Qed.

Lemma snapshot_calls_turns instance w h d h' :
  snapshot_calls instance w h = (inr d, h') ->
  exists cur allBuffers bufs blocks,
    on_buffers w (asking (h ++ completed [CallGetcwd; GetBuffer; GetName cur;
                                          CallGetpos])%list GetBuffers)
    = inr allBuffers
    /\ Details.buffers d = Some bufs
    /\ map Buf.id bufs = map buf_id allBuffers
    /\ h' = (h ++ completed [CallGetcwd; GetBuffer; GetName cur; CallGetpos;
                             GetBuffers]
               ++ map (fun b => Sent (GetName (buf_id b))) allBuffers
               ++ List.concat blocks)%list
    /\ Forall resumption blocks
    /\ interleaved (map (fun b => buffer_turns (buf_id b)) allBuffers) blocks.
Proof.
  unfold snapshot_calls, bind, await, ret. intros R. split_calls.
  match goal with
  | H : promise_all_map ?c ?l _ _ = _ |- _ =>
      destruct (promise_all_map_returns _ _ _ _ _ _ H) as (I & _);
      apply promise_all_map_turns in H;
      destruct H as (blocks & -> & F & Pm);
      exists (buf_id c), l
  end.
  eexists. exists blocks.
  split.
  { match goal with
    | H : on_buffers w ?l = inr _ |- _ =>
        rewrite <- H; f_equal; unfold asking; cbn; now rewrite <- !app_assoc
    end. }
  split; [reflexivity|]. split; [exact I|]. split; [|now split].
  cbn. now rewrite <- !app_assoc.
Qed.

(** C9, as the code has it: in a snapshot that succeeds, [attach],
    [getcwd], the current buffer, its name, [getpos] and the buffer list
    are issued strictly one after another, each settled before the next is
    issued.  Then, for the buffers that the editor listed, the [name]
    fetches are all issued together, in the order of the list, before any
    of them settles.  From there on every turn of the event loop resumes
    the callback of one buffer: the callback's first turn settles that
    buffer's [name] fetch and at once issues its [loaded] fetch, its second
    turn settles the [loaded] fetch.  The turns of different callbacks
    interleave in any order, each callback takes its two turns in this
    order, and every callback has taken both when [close] is issued, last:
    by then every [name] and [loaded] fetch of a listed buffer has been
    issued and has settled, once.  The snapshot has one entry per listed
    buffer, in the order of the list.  With two buffers or more, calls are
    in flight together: the dispatch is not strictly sequential. *)
Theorem snapshot_dispatch_order :
  forall fs p w d h,
    getNeovimInstanceDetails fs p w = (d, h) ->
    Details.error d = None ->
    exists instance cur allBuffers bufs blocks,
      getNeovimInstance fs p = Some instance
      /\ on_buffers w (asking (completed [Attach (socket instance); CallGetcwd;
                                          GetBuffer; GetName cur; CallGetpos])
                              GetBuffers)
         = inr allBuffers
      /\ Details.buffers d = Some bufs
      /\ map Buf.id bufs = map buf_id allBuffers
      /\ h = (completed [Attach (socket instance); CallGetcwd; GetBuffer;
                         GetName cur; CallGetpos; GetBuffers]
              ++ map (fun b => Sent (GetName (buf_id b))) allBuffers
              ++ List.concat blocks
              ++ completed [Close])%list
      /\ interleaved (map (fun b => buffer_turns (buf_id b)) allBuffers) blocks
      /\ Permutation blocks
           (flat_map (fun b => buffer_turns (buf_id b)) allBuffers)
      /\ one_at_a_time (completed [Attach (socket instance); CallGetcwd;
                                   GetBuffer; GetName cur; CallGetpos;
                                   GetBuffers]) = true
      /\ ((2 <= List.length allBuffers)%nat -> one_at_a_time h = false).
Proof.
  intros fs p w d h R N.
  destruct (getNeovimInstance fs p) as [instance|] eqn:F.
  - rewrite (details_found _ _ _ F) in R.
    destruct (try_session_cases instance (snapshot_calls instance) (fun d => d)
                (fun error => error_details instance (connect_failure error)) w)
      as [(d' & h2 & _ & C & _ & X)|(e & h' & X)];
      rewrite X in R; injection R as <- <-; [|discriminate N].
    destruct (snapshot_calls_turns _ _ _ _ _ C)
      as (cur & allBuffers & bufs & blocks & O & B & I & -> & Fb & Il).
    exists instance, cur, allBuffers, bufs, blocks.
    assert (L : ((connected instance
                  ++ completed [CallGetcwd; GetBuffer; GetName cur; CallGetpos;
                                GetBuffers]
                  ++ map (fun b => Sent (GetName (buf_id b))) allBuffers
                  ++ List.concat blocks) ++ [Sent Close; Settled Close])%list
                = (completed [Attach (socket instance); CallGetcwd; GetBuffer;
                              GetName cur; CallGetpos; GetBuffers]
                   ++ map (fun b => Sent (GetName (buf_id b))) allBuffers
                   ++ List.concat blocks
                   ++ completed [Close])%list).
    { cbn. now rewrite <- !app_assoc. }
    rewrite L. split; [reflexivity|]. split; [exact O|]. split; [exact B|].
    split; [exact I|]. split; [reflexivity|]. split; [exact Il|].
    split.
    { rewrite flat_map_concat_map. now apply interleaved_permutation. }
    split; [reflexivity|].
    intros Two. unfold one_at_a_time. rewrite in_flight_completed.
    destruct allBuffers as [|a [|b l]]; cbn in Two; try lia. reflexivity.
  - rewrite (details_absent _ _ F) in R. injection R as <- <-. discriminate N.
Qed.

Lemma snapshot_dispatch_order_witness :
  exists instance cur allBuffers bufs blocks,
    getNeovimInstance one_instance 1257 = Some instance
    /\ on_buffers calm (asking (completed [Attach (socket instance); CallGetcwd;
                                           GetBuffer; GetName cur; CallGetpos])
                               GetBuffers)
       = inr allBuffers
    /\ Details.buffers (fst (getNeovimInstanceDetails one_instance 1257 calm))
       = Some bufs
    /\ map Buf.id bufs = map buf_id allBuffers
    /\ snd (getNeovimInstanceDetails one_instance 1257 calm)
       = (completed [Attach (socket instance); CallGetcwd; GetBuffer;
                     GetName cur; CallGetpos; GetBuffers]
          ++ map (fun b => Sent (GetName (buf_id b))) allBuffers
          ++ List.concat blocks
          ++ completed [Close])%list
    /\ interleaved (map (fun b => buffer_turns (buf_id b)) allBuffers) blocks
    /\ Permutation blocks
         (flat_map (fun b => buffer_turns (buf_id b)) allBuffers)
    /\ one_at_a_time (completed [Attach (socket instance); CallGetcwd;
                                 GetBuffer; GetName cur; CallGetpos;
                                 GetBuffers]) = true
    /\ ((2 <= List.length allBuffers)%nat ->
        one_at_a_time (snd (getNeovimInstanceDetails one_instance 1257 calm))
        = false).
Proof.
  exact (snapshot_dispatch_order one_instance 1257 calm _ _ eq_refl eq_refl).
Defined.

(** ** Navigation stops at the first rejected call *)

Lemma rejections_steps w instance rs :
  attach_outcome w instance = inr tt ->
  rejections_from w (connected instance) (completed rs) = [] ->
  rejections w (completed (Attach (socket instance) :: rs)) = [].
Proof.
  intros At J.
  change (Attach (socket instance) :: rs)
    with ([Attach (socket instance)] ++ rs)%list.
  rewrite completed_app. unfold rejections. rewrite rejections_from_app.
  fold (connected instance). fold (rejections w (connected instance)).
  rewrite rejections_connected, At. exact J.
Qed.

(** X8.  On a located instance the run of a navigation is fixed by the
    editor's answers to attach, edit, checktime, cursor, [v], cursor, taken
    in that order.  If one of them is rejected, the first rejected one is
    the last of them to be issued: every step before it was issued and
    answered, none after it is issued, [close] follows once unless the
    rejected call is [attach] itself, and the result is the failure built
    from what that call threw.  If all are answered and [close] is
    answered too, all steps and one [close] were issued and the result is
    the success.  If all are answered and [close] is rejected, [close] is
    issued a second time and the result is the failure built from what the
    first [close] threw. *)
Theorem navigation_stops_at_first_rejection :
  forall fs p instance filePath line column endLine endColumn w r h,
    getNeovimInstance fs p = Some instance ->
    openFileInNeovim fs p filePath line column endLine endColumn w = (r, h) ->
    (exists done q notdone e,
        Attach (socket instance)
          :: navigation_requests filePath line column endLine endColumn
        = (done ++ q :: notdone)%list
        /\ rejections w (completed done) = []
        /\ rejection w (asking (completed done) q) q = Some e
        /\ h = (completed (done ++ [q])
                ++ match done with [] => [] | _ :: _ => completed [Close] end)%list
        /\ r = open_failed filePath (connect_failure e))
    \/ (rejections w
          (completed
             (Attach (socket instance)
                :: navigation_requests filePath line column endLine endColumn))
        = []
        /\ rejection w
             (asking
                (completed
                   (Attach (socket instance)
                      :: navigation_requests filePath line column endLine
                           endColumn))
                Close)
             Close = None
        /\ h = completed
                 (Attach (socket instance)
                    :: navigation_requests filePath line column endLine endColumn
                    ++ [Close])
        /\ r = open_ok filePath line column
                 (navigation_message filePath line column endLine endColumn))
    \/ (exists e,
          rejections w
            (completed
               (Attach (socket instance)
                  :: navigation_requests filePath line column endLine endColumn))
          = []
          /\ rejection w
               (asking
                  (completed
                     (Attach (socket instance)
                        :: navigation_requests filePath line column endLine
                             endColumn))
                  Close)
               Close = Some e
          /\ h = completed
                   (Attach (socket instance)
                      :: navigation_requests filePath line column endLine
                           endColumn
                      ++ [Close; Close])
          /\ r = open_failed filePath (connect_failure e)).
Proof.
  intros fs p instance filePath line column endLine endColumn w r h F R.
  rewrite (open_found _ _ _ _ _ _ _ _ F) in R. unfold try_return in R.
  assert (L : forall rs closes,
             ((connected instance ++ completed rs) ++ completed closes)%list
             = completed (Attach (socket instance) :: rs ++ closes)).
  { intros rs closes.
    change (Attach (socket instance) :: rs ++ closes)
      with ([Attach (socket instance)] ++ rs ++ closes)%list.
    now rewrite !completed_app, <- app_assoc. }
  assert (Whole : forall h2 added rs,
             h2 = (connected instance ++ added)%list ->
             h2 = (connected instance ++ completed rs)%list ->
             added = completed rs).
  { intros h2 added rs -> E. now apply app_inv_head in E. }
  pose proof (navigate_calls_faithful filePath line column endLine endColumn)
    as Fc.
  destruct (session instance
              (navigate_calls filePath line column endLine endColumn)
              (open_ok filePath line column) w []) as [[e|b] h'] eqn:X;
    injection R as <- <-.
  - destruct (session_throws _ _ _ _ _ _ X)
      as [(At & ->)|[(At & h2 & C & ->)|(At & m & h2 & C & K & ->)]].
    + left.
      exists [], (Attach (socket instance)),
        (navigation_requests filePath line column endLine endColumn), e.
      split; [reflexivity|]. split; [reflexivity|].
      split; [|split; [now rewrite app_nil_r | reflexivity]].
      unfold attach_outcome in At. unfold rejection. cbn [completed flat_map].
      now rewrite At.
    + left.
      destruct (navigate_calls_prefix _ _ _ _ _ _ _ _ _ C)
        as (rs & rest & P & H2 & _).
      destruct (Fc _ _ _ _ C) as (added & E2 & before & q & -> & J & Kr).
      pose proof (Whole _ _ _ E2 H2) as E3. symmetry in E3.
      destruct (completed_ends_settled _ _ _ E3) as (rs' & -> & ->).
      rewrite rejections_from_app in J. apply app_eq_nil in J.
      destruct J as [J _].
      exists (Attach (socket instance) :: rs'), q, rest, e.
      split; [rewrite P, <- app_assoc; reflexivity|].
      split; [now apply rejections_steps|].
      split.
      { rewrite <- Kr. f_equal. }
      split; [|reflexivity].
      rewrite H2.
      change ((Attach (socket instance) :: rs') ++ [q])%list
        with ([Attach (socket instance)] ++ (rs' ++ [q]))%list.
      rewrite (completed_app [Attach (socket instance)]). reflexivity.
    + right. right. exists e.
      destruct (navigate_calls_prefix _ _ _ _ _ _ _ _ _ C)
        as (rs & rest & P & H2 & -> & _).
      rewrite app_nil_r in P. subst rs.
      destruct (Fc _ _ _ _ C) as (added & E2 & J).
      rewrite (Whole _ _ _ E2 H2) in J.
      split; [now apply rejections_steps|].
      split.
      { change (Attach (socket instance)
                  :: navigation_requests filePath line column endLine endColumn)
          with ([Attach (socket instance)]
                  ++ navigation_requests filePath line column endLine endColumn)%list.
        rewrite completed_app. fold (connected instance). rewrite <- H2.
        cbn. now rewrite K. }
      split; [|reflexivity]. subst h2. apply L.
  - right. left.
    destruct (session_returns _ _ _ _ _ _ X) as (m & h2 & At & C & K & -> & ->).
    destruct (navigate_calls_prefix _ _ _ _ _ _ _ _ _ C)
      as (rs & rest & P & H2 & -> & ->).
    rewrite app_nil_r in P. subst rs.
    destruct (Fc _ _ _ _ C) as (added & E2 & J).
    rewrite (Whole _ _ _ E2 H2) in J.
    split; [now apply rejections_steps|].
    split.
    { change (Attach (socket instance)
                :: navigation_requests filePath line column endLine endColumn)
        with ([Attach (socket instance)]
                ++ navigation_requests filePath line column endLine endColumn)%list.
      rewrite completed_app. fold (connected instance). rewrite <- H2.
      cbn. now rewrite K. }
    split; [|reflexivity]. subst h2. apply L.
Qed.

Lemma navigation_stops_at_first_rejection_witness :
  (exists done q notdone e,
      Attach (socket nvim1257)
        :: navigation_requests "f.txt" (Some 10) None (Some 20) None
      = (done ++ q :: notdone)%list
      /\ rejections (calm_except is_checktime (ErrorObj "boom")) (completed done)
         = []
      /\ rejection (calm_except is_checktime (ErrorObj "boom"))
           (asking (completed done) q) q = Some e
      /\ snd (openFileInNeovim one_instance 1257 "f.txt" (Some 10) None (Some 20)
                None (calm_except is_checktime (ErrorObj "boom")))
         = (completed (done ++ [q])
            ++ match done with [] => [] | _ :: _ => completed [Close] end)%list
      /\ fst (openFileInNeovim one_instance 1257 "f.txt" (Some 10) None (Some 20)
                None (calm_except is_checktime (ErrorObj "boom")))
         = open_failed "f.txt" (connect_failure e))
  \/ (rejections (calm_except is_checktime (ErrorObj "boom"))
        (completed
           (Attach (socket nvim1257)
              :: navigation_requests "f.txt" (Some 10) None (Some 20) None))
      = []
      /\ rejection (calm_except is_checktime (ErrorObj "boom"))
           (asking
              (completed
                 (Attach (socket nvim1257)
                    :: navigation_requests "f.txt" (Some 10) None (Some 20) None))
              Close)
           Close = None
      /\ snd (openFileInNeovim one_instance 1257 "f.txt" (Some 10) None (Some 20)
                None (calm_except is_checktime (ErrorObj "boom")))
         = completed
             (Attach (socket nvim1257)
                :: navigation_requests "f.txt" (Some 10) None (Some 20) None
                ++ [Close])
      /\ fst (openFileInNeovim one_instance 1257 "f.txt" (Some 10) None (Some 20)
                None (calm_except is_checktime (ErrorObj "boom")))
         = open_ok "f.txt" (Some 10) None
             (navigation_message "f.txt" (Some 10) None (Some 20) None))
  \/ (exists e,
        rejections (calm_except is_checktime (ErrorObj "boom"))
          (completed
             (Attach (socket nvim1257)
                :: navigation_requests "f.txt" (Some 10) None (Some 20) None))
        = []
        /\ rejection (calm_except is_checktime (ErrorObj "boom"))
             (asking
                (completed
                   (Attach (socket nvim1257)
                      :: navigation_requests "f.txt" (Some 10) None (Some 20)
                           None))
                Close)
             Close = Some e
        /\ snd (openFileInNeovim one_instance 1257 "f.txt" (Some 10) None
                  (Some 20) None (calm_except is_checktime (ErrorObj "boom")))
           = completed
               (Attach (socket nvim1257)
                  :: navigation_requests "f.txt" (Some 10) None (Some 20) None
                  ++ [Close; Close])
        /\ fst (openFileInNeovim one_instance 1257 "f.txt" (Some 10) None
                  (Some 20) None (calm_except is_checktime (ErrorObj "boom")))
           = open_failed "f.txt" (connect_failure e)).
Proof.
  exact (navigation_stops_at_first_rejection
           one_instance 1257 nvim1257 "f.txt" (Some 10) None (Some 20) None
           (calm_except is_checktime (ErrorObj "boom")) _ _ eq_refl eq_refl).
Defined.
